(** * AssureVision dashboard core (desktopApp.py)

    A shallow embedding of the ingestion / classification / filtering /
    aggregation code of [desktopApp.py], and the properties its
    specification states about it.

    Modelling conventions.
    - Python [str] is [string]; a character is an 8-bit [ascii].  The case
      conversions [upper]/[lower] act on the ASCII letters and the
      white-space class is the ASCII part of [str.isspace]; text outside
      ASCII is carried through unchanged.
    - Python [dict] / [defaultdict] is stdpp's [gmap]; iteration over
      [d.items()] is a left-to-right pass over [map_to_list d].  No
      property below depends on the insertion order of a dict.
    - A [datetime] obtained from a file's modification time is the number
      of whole seconds since the epoch on the local clock (a [Z]).  The two
      things the code computes from it, the calendar date and the floor to
      a 60-second boundary, do not depend on the sub-second fraction.
    - Code that can raise lives in the [result] monad; code that mutates
      Python objects ([apply_filters]) lives in a state monad over an
      explicit object store. *)

From Stdlib Require Import ZArith String Ascii List Bool Lia Permutation Sorted.
From stdpp Require Import gmap strings list fin_maps sorting.

Local Open Scope string_scope.
Local Open Scope list_scope.

(* ===================================================================== *)
(** * Python string operations                                            *)
(* ===================================================================== *)

Module PyStr.

  (** [str.isspace] on the ASCII range: TAB, LF, VT, FF, CR, FS, GS, RS,
      US and SPACE. *)
Definition is_space (c : ascii) : bool :=
    let n := nat_of_ascii c in
    ((9 <=? n)%nat && (n <=? 13)%nat) || ((28 <=? n)%nat && (n <=? 32)%nat).

Definition upper_char (c : ascii) : ascii :=
    let n := nat_of_ascii c in
    if (97 <=? n)%nat && (n <=? 122)%nat then ascii_of_nat (n - 32) else c.

Definition lower_char (c : ascii) : ascii :=
    let n := nat_of_ascii c in
    if (65 <=? n)%nat && (n <=? 90)%nat then ascii_of_nat (n + 32) else c.

Fixpoint map_chars (f : ascii -> ascii) (s : string) : string :=
    match s with
    | EmptyString => EmptyString
    | String c r => String (f c) (map_chars f r)
    end.

  (** [s.upper()] and [s.lower()]. *)
Definition upper (s : string) : string := map_chars upper_char s.
Definition lower (s : string) : string := map_chars lower_char s.

  (** [s.replace(" ", "")]: every SPACE character is removed. *)
Fixpoint remove_spaces (s : string) : string :=
    match s with
    | EmptyString => EmptyString
    | String c r =>
        if Ascii.eqb c " " then remove_spaces r else String c (remove_spaces r)
    end.

Fixpoint lstrip (s : string) : string :=
    match s with
    | EmptyString => EmptyString
    | String c r => if is_space c then lstrip r else s
    end.

Fixpoint rstrip (s : string) : string :=
    match s with
    | EmptyString => EmptyString
    | String c r =>
        match rstrip r with
        | EmptyString => if is_space c then EmptyString else String c EmptyString
        | r' => String c r'
        end
    end.

  (** [s.strip()]. *)
Definition strip (s : string) : string := rstrip (lstrip s).

  (** [s.split(sep)] for a one-character separator.  The result is never
      empty: [''.split(',') = ['']]. *)
Fixpoint split (sep : ascii) (s : string) : list string :=
    match s with
    | EmptyString => [EmptyString]
    | String c r =>
        if Ascii.eqb c sep then EmptyString :: split sep r
        else match split sep r with
             | [] => [String c EmptyString]
             | p :: ps => String c p :: ps
             end
    end.

  (** [sep.join(parts)]. *)
Fixpoint join (sep : string) (parts : list string) : string :=
    match parts with
    | [] => EmptyString
    | [p] => p
    | p :: ps => p +:+ sep +:+ join sep ps
    end.

  (** [s.startswith(p)]. *)
Definition startswith (p s : string) : bool := String.prefix p s.

  (** [s.endswith(suf)]. *)
Definition endswith (suf s : string) : bool :=
    (String.length suf <=? String.length s)%nat
    && String.eqb
         (String.substring (String.length s - String.length suf)
                           (String.length suf) s)
         suf.

  (** [s[:-n]] for a positive literal [n]: the slice end [len(s) - n] is
      clamped at [0]. *)
Definition drop_last (n : nat) (s : string) : string :=
    String.substring 0 (String.length s - n) s.

  (** [bool(s)]: a string is truthy when it is not empty. *)
Definition truthy (s : string) : bool :=
    match s with EmptyString => false | _ => true end.

  (** [parts[:-1]]. *)
Definition init {A} (l : list A) : list A := removelast l.

End PyStr.

Import PyStr.

(** [sorted(l)] / [l.sort()], with the order given by its [<].  Python's
    sort is stable, and so is this insertion sort: an element is put
    behind the elements that are smaller and in front of all others. *)
Fixpoint insert_sorted {A} (lt : A -> A -> bool) (x : A) (l : list A)
  : list A :=
  match l with
  | [] => [x]
  | y :: l' => if lt y x then y :: insert_sorted lt x l' else x :: l
  end.

Definition py_sorted {A} (lt : A -> A -> bool) (l : list A) : list A :=
  foldr (insert_sorted lt) [] l.

(* ===================================================================== *)
(** * Helpers: [txt_is_pass], [load_txt]                                  *)
(* ===================================================================== *)

(** [[p.strip() for p in text.split(",") if p.strip()]] *)
Definition labels_of (text : string) : list string :=
  List.map strip (List.filter (fun p => truthy (strip p)) (split "," text)).

(** [lbl.replace(" ", "").upper()] *)
Definition normalize (lbl : string) : string := upper (remove_spaces lbl).

Definition txt_is_pass (text : string) : bool :=
  let labels := labels_of text in
  let has_pass :=
    existsb (fun lbl => String.eqb (normalize lbl) "JOB.PASS:1") labels in
  if has_pass then true
  else
    let has_fail :=
      existsb (fun lbl => String.eqb (normalize lbl) "JOB.FAIL:1") labels in
    if has_fail then false
    else false.

(** ** Exceptions and the [result] monad *)

Inductive exn : Type :=
  | FileNotFoundError
  | PermissionError
  | OSError.

Inductive result (A : Type) : Type :=
  | Ok (a : A)
  | Raise (e : exn).
Arguments Ok {A} a.
Arguments Raise {A} e.

#[global] Instance result_ret : MRet result := fun _ a => Ok a.
#[global] Instance result_bind : MBind result :=
  fun _ _ f r => match r with Ok a => f a | Raise e => Raise e end.

(** [try: body  except Exception: handler] *)
Definition try_except {A} (body : result A) (handler : exn -> result A)
  : result A :=
  match body with
  | Ok a => Ok a
  | Raise e => handler e
  end.

(** A loop [for x in l: s = f(s, x)] whose body may raise. *)
Fixpoint foldM {S A} (f : S -> A -> result S) (s : S) (l : list A)
  : result S :=
  match l with
  | [] => mret s
  | x :: l' => s' ← f s x; foldM f s' l'
  end.

(** [load_txt(path)].  The argument is the outcome of
    [open(path, "r", encoding="utf-8", errors="ignore")] followed by
    [f.read()]: the decoded text, or the exception raised on the way. *)
Definition load_txt (read : result string) : result string :=
  try_except (text ← read; mret (strip text)) (fun _ => mret "").

(* ===================================================================== *)
(** * Ingestion: [AssureVisionApp.parse_folder_data]                      *)
(* ===================================================================== *)

(** One entry of the dict list stored per prefix:
    [{"ts": ts, "is_pass": is_pass, "path": file_path, "content": content}] *)
Record event : Type := Event {
  ts : Z;
  is_pass : bool;
  path : string;
  content : string
}.

#[global] Instance event_eq_dec : EqDecision event.
Proof. solve_decision. Defined.

(** A file as the walk sees it: its name, [os.path.getmtime] of it and
    what reading it yields. *)
Record file_entry : Type := FileEntry {
  f_name : string;
  f_mtime : Z;
  f_read : result string
}.

(** [os.walk(folder)]: the [(root, _, files)] triples in visiting order. *)
Definition walk : Type := list (string * list file_entry).

(** [os.path.join(a, b)] (POSIX). *)
Definition path_join (a b : string) : string :=
  if startswith "/" b then b
  else if negb (truthy a) || endswith "/" a then a +:+ b
  else a +:+ "/" +:+ b.

(** [d[k].append(x)] on a [defaultdict(list)]. *)
Definition dd_append `{Countable K} {V} (k : K) (x : V)
    (d : gmap K (list V)) : gmap K (list V) :=
  <[k := default [] (d !! k) ++ [x]]> d.

(** [parts = file[:-4].split("_")];
    [prefix = "_".join(parts[:-1]) if len(parts) > 1 else parts[0]] *)
Definition prefix_of_file (file : string) : string :=
  let parts := split "_" (drop_last 4 file) in
  if (1 <? length parts)%nat then join "_" (init parts)
  else default "" (parts !! 0%nat).

(** Body of the loop [for lbl in labels] of [parse_folder_data]. *)
Definition collect_cause (is_pass : bool) (file_path : string)
    (causes : gmap string (list string)) (lbl : string)
  : gmap string (list string) :=
  let norm := remove_spaces lbl in
  let up := upper norm in
  if startswith "JOB.PASS" up || startswith "JOB.FAIL" up then causes
  else if endswith ":OK" up || endswith "=OK" up then causes
  else if negb is_pass then dd_append lbl file_path causes
  else causes.

(** The state threaded through the walk: [data_by_prefix] and
    [self._aggregated_failure_causes]. *)
Definition ingest_state : Type :=
  (gmap string (list event) * gmap string (list string))%type.

(** Body of the loop [for file in files]. *)
Definition parse_file (root : string) (st : ingest_state) (f : file_entry)
  : result ingest_state :=
  let file := f_name f in
  if negb (endswith ".txt" (lower file)) then mret st
  else
    let file_path := path_join root file in
    let ts := f_mtime f in
    let prefix := prefix_of_file file in
    content ← load_txt (f_read f);
    let is_pass := txt_is_pass content in
    let labels := labels_of content in
    let causes := fold_left (collect_cause is_pass file_path) labels st.2 in
    mret (dd_append prefix (Event ts is_pass file_path content) st.1, causes).

(** [parse_folder_data(folder)]: returns [data_by_prefix] together with the
    rebuilt [self._aggregated_failure_causes]. *)
Definition parse_folder_data (w : walk) : result ingest_state :=
  foldM (fun st '(root, files) => foldM (parse_file root) st files) (∅, ∅) w.

(* ===================================================================== *)
(** * Aggregations over [filtered_data]                                   *)
(* ===================================================================== *)

(** Body of the loop [for lbl in labels] of [render_failure_causes_chart]. *)
Definition count_cause (ev_path : string)
    (cause_counts : gmap string (list string)) (lbl : string)
  : gmap string (list string) :=
  let up := upper (remove_spaces lbl) in
  if startswith "JOB.PASS" up || startswith "JOB.FAIL" up then cause_counts
  else if endswith ":OK" up || endswith "=OK" up then cause_counts
  else dd_append lbl ev_path cause_counts.

(** Body of the loop [for ev in events]. *)
Definition count_event (cause_counts : gmap string (list string)) (ev : event)
  : gmap string (list string) :=
  if negb (is_pass ev) then
    fold_left (count_cause (path ev)) (labels_of (content ev)) cause_counts
  else cause_counts.

(** The [cause_counts] that [render_failure_causes_chart] builds from
    [self.filtered_data] and then plots. *)
Definition render_failure_causes_chart
    (filtered_data : gmap string (list event)) : gmap string (list string) :=
  fold_left (fun cc '(prefix, events) => fold_left count_event events cc)
            (map_to_list filtered_data) ∅.

(** [{"pass": 0, "fail": 0}] *)
Record counts : Type := Counts { pass_count : nat; fail_count : nat }.

Definition time_bin : Z := 60.

(** [ts.timestamp() // time_bin * time_bin] *)
Definition binned_ts (t : Z) : Z := (t / time_bin * time_bin)%Z.

(** [grouped[prefix][binned_ts]["pass" | "fail"] += 1] on the nested
    [defaultdict]. *)
Definition bump (prefix : string) (grouped : gmap string (gmap Z counts))
    (ev : event) : gmap string (gmap Z counts) :=
  let b := binned_ts (ts ev) in
  let bins := default ∅ (grouped !! prefix) in
  let c := default (Counts 0 0) (bins !! b) in
  let c' := if is_pass ev then Counts (pass_count c + 1) (fail_count c)
            else Counts (pass_count c) (fail_count c + 1) in
  <[prefix := <[b := c']> bins]> grouped.

(** The [grouped] table that [render_heartbeat_chart] builds from
    [self.filtered_data] and then plots. *)
Definition render_heartbeat_chart
    (filtered_data : gmap string (list event)) : gmap string (gmap Z counts) :=
  fold_left (fun g '(prefix, events) => fold_left (bump prefix) events g)
            (map_to_list filtered_data) ∅.

(* ===================================================================== *)
(** * Filtering: [AssureVisionApp.apply_filters]                          *)
(* ===================================================================== *)

(** [self.outcome_filter]: ["All" | "Fail" | "Pass"]. *)
Inductive outcome : Type := All | Fail | Pass.

(** The filter settings read by [apply_filters]: the outcome filter and the
    two date edits.  A date is a day number; [None] is a [QDate] for which
    [isValid()] is false. *)
Record filter_spec : Type := FilterSpec {
  outcome_filter : outcome;
  start_date : option Z;
  end_date : option Z
}.

(** [ts.date()], as a day number. *)
Definition date_of (t : Z) : Z := (t / 86400)%Z.

(** The four [continue] tests of the inner loop, in order: [true] when the
    event is skipped. *)
Definition skipped (spec : filter_spec) (ev : event) : bool :=
  let d := date_of (ts ev) in
  if match start_date spec with Some s => (d <? s)%Z | None => false end
  then true
  else if match end_date spec with Some e => (e <? d)%Z | None => false end
  then true
  else if match outcome_filter spec with Fail => is_pass ev | _ => false end
  then true
  else if match outcome_filter spec with
          | Pass => negb (is_pass ev) | _ => false end
  then true
  else false.

(** ** The object store

    [apply_filters] receives a dict of lists and builds a new dict of new
    lists.  Dicts and lists are mutable Python objects, so they live in a
    store and are referred to by location; the events themselves are
    never written to and are kept as values. *)
Module Store.

Abbreviation loc := nat.

Inductive obj : Type :=
    | OList (es : list event)
    | ODict (d : gmap string loc).

Abbreviation store := (list obj).

  (** Computations that read and write the store; [None] is a run-time
      error (a location that holds no object of the expected kind). *)
Definition St (A : Type) : Type := store -> option (A * store).

#[global] Instance St_ret : MRet St := fun _ a h => Some (a, h).
#[global] Instance St_bind : MBind St :=
    fun _ _ f m h => match m h with
                     | Some (a, h') => f a h'
                     | None => None
                     end.

  (** [{}] / [[]]: a fresh object at the next free location. *)
Definition alloc (o : obj) : St loc := fun h => Some (length h, h ++ [o]).

  (** [list(d.items())] *)
Definition dict_items (d : loc) : St (list (string * loc)) :=
    fun h => match h !! d with
             | Some (ODict m) => Some (map_to_list m, h)
             | _ => None
             end.

  (** The elements of the list at [l], as iteration sees them. *)
Definition list_items (l : loc) : St (list event) :=
    fun h => match h !! l with
             | Some (OList es) => Some (es, h)
             | _ => None
             end.

  (** [l.append(e)] *)
Definition list_append (l : loc) (e : event) : St unit :=
    fun h => match h !! l with
             | Some (OList es) => Some (tt, <[l := OList (es ++ [e])]> h)
             | _ => None
             end.

  (** [d[k] = v] *)
Definition dict_setitem (d : loc) (k : string) (v : loc) : St unit :=
    fun h => match h !! d with
             | Some (ODict m) => Some (tt, <[d := ODict (<[k := v]> m)]> h)
             | _ => None
             end.

  (** [for x in xs: body(x)] *)
Fixpoint for_each {A} (xs : list A) (body : A -> St unit) : St unit :=
    match xs with
    | [] => mret tt
    | x :: xs' => body x ;; for_each xs' body
    end.

  (** What a dict object denotes: the map from its keys to the contents
      of the lists they refer to. *)
Definition read_list (h : store) (l : loc) : option (list event) :=
    match h !! l with
    | Some (OList es) => Some es
    | _ => None
    end.

Definition read_dict (h : store) (d : loc)
    : option (gmap string (list event)) :=
    match h !! d with
    | Some (ODict m) =>
        if decide (map_Forall (fun _ l => is_Some (read_list h l)) m)
        then Some (omap (read_list h) m)
        else None
    | _ => None
    end.

End Store.

Import Store.

(** [apply_filters(data)], with the settings it reads from [self] passed
    as [spec]; [data] and the result are locations of dict objects. *)
Definition apply_filters (spec : filter_spec) (data : loc) : St loc :=
  filtered ← alloc (ODict ∅);
  items ← dict_items data;
  for_each items (fun '(prefix, events) =>
    out ← alloc (OList []);
    evs ← list_items events;
    for_each evs (fun ev =>
      if skipped spec ev then mret tt else list_append out ev) ;;
    dict_setitem filtered prefix out) ;;
  mret filtered.

(* ===================================================================== *)
(** * Paging: [FolderViewer]                                              *)
(* ===================================================================== *)

Module FolderViewer.

  (** One element of [all_rows]:
      [(ts, short_name, result, read_string, img_path)]. *)
Record row : Type := Row {
    r_ts : string;
    r_short_name : string;
    r_result : string;
    r_read_string : string;
    r_img_path : string
  }.

  (** The viewer's fields, and what it currently displays: the rows set
      into the table and the image shown ([None] after
      [image_label.clear()]). *)
Record t : Type := Viewer {
    all_rows : list row;
    page_size : nat;
    current_page : nat;
    table : list row;
    image : option string
  }.

Definition set_current_page (n : nat) (v : t) : t :=
    Viewer (all_rows v) (page_size v) n (table v) (image v).

  (** [self.all_rows[start:end]] with [0 <= start <= end]. *)
Definition slice {A} (start stop : nat) (l : list A) : list A :=
    take (stop - start) (drop start l).

Definition refresh_page (v : t) : t :=
    let start := current_page v * page_size v in
    let stop := start + page_size v in
    let rows := slice start stop (all_rows v) in
    Viewer (all_rows v) (page_size v) (current_page v) rows
           (match rows with
            | r :: _ => Some (r_img_path r)
            | [] => None
            end).

Definition first_page (v : t) : t :=
    refresh_page (set_current_page 0 v).

Definition prev_page (v : t) : t :=
    if (0 <? current_page v)%nat
    then refresh_page (set_current_page (current_page v - 1) v)
    else v.

Definition next_page (v : t) : t :=
    if ((current_page v + 1) * page_size v <? length (all_rows v))%nat
    then refresh_page (set_current_page (current_page v + 1) v)
    else v.

Definition last_page (v : t) : t :=
    match all_rows v with
    | [] => v
    | _ :: _ =>
        refresh_page
          (set_current_page ((length (all_rows v) - 1) / page_size v) v)
    end.

  (** The viewer as [populate_table] leaves it: on page 0, refreshed. *)
Definition opened (rows : list row) (size : nat) : t :=
    refresh_page (Viewer rows size 0 [] None).

  (** The number of pages, [ceil(len(all_rows) / page_size)].  The viewer
      keeps no such field; [last_page] computes the last index directly. *)
Definition page_count (v : t) : nat :=
    (length (all_rows v) + page_size v - 1) / page_size v.

(** [show_image(img_path)] *)
Definition show_image (img_path : string) (v : t) : t :=
  Viewer (all_rows v) (page_size v) (current_page v) (table v) (Some img_path).

(** [row_clicked(row, col)] *)
Definition row_clicked (row col : Z) (v : t) : t :=
  let start := Z.of_nat (current_page v * page_size v) in
  let actual_index := (start + row)%Z in
  if (0 <=? actual_index)%Z && (actual_index <? Z.of_nat (length (all_rows v)))%Z
  then match all_rows v !! Z.to_nat actual_index with
       | Some r => show_image (r_img_path r) v
       | None => v
       end
  else v.

(** [change_page_size(text)]; the argument is [int(text)]. *)
Definition change_page_size (size : nat) (v : t) : t :=
  refresh_page (Viewer (all_rows v) size 0 (table v) (image v)).

(** [base if len(base) < 20 else base[:17] + "..."] *)
Definition short_name (base : string) : string :=
  if (String.length base <? 20)%nat then base
  else String.substring 0 17 base +:+ "...".

(** The "read string" column: every label that does not start with
    [Job.Pass] or [Job.Fail] (upper-cased), joined by [", "]. *)
Definition read_values (content : string) : list string :=
  List.filter
    (fun p => negb (startswith "JOB.PASS" (upper p))
              && negb (startswith "JOB.FAIL" (upper p)))
    (labels_of content).

Definition read_string (content : string) : string :=
  join ", " (read_values content).

(** The loop body of [populate_table] for the image file [f]: the row it
    appends, if any.  [listing] is [os.listdir(self.current_folder)] with
    what [getmtime] and a read give for each name, [strftime] formats a
    time stamp as ["%Y-%m-%d %H:%M:%S"]. *)
Definition table_row (strftime : Z -> string) (listing : list file_entry)
    (folder : string) (outcome_filter : outcome) (f : string) : option row :=
  let base := drop_last 4 f in
  let img_path := path_join folder f in
  match List.find (fun g => String.eqb (f_name g) (base +:+ ".txt")) listing
  with
  | None => None
  | Some txt =>
      match load_txt (f_read txt) with
      | Raise _ => None
      | Ok content =>
          let is_pass := txt_is_pass content in
          if match outcome_filter with Pass => negb is_pass | _ => false end
          then None
          else if match outcome_filter with Fail => is_pass | _ => false end
          then None
          else Some (Row (strftime (f_mtime txt)) (short_name base)
                         (if is_pass then "✔" else "✘")
                         (read_string content) img_path)
      end
  end.

(** [populate_table()] on a new viewer. *)
Definition populate_table (strftime : Z -> string)
    (listing : list file_entry) (folder : string) (outcome_filter : outcome)
  : t :=
  let bmp_files :=
    py_sorted String.ltb
      (List.filter (fun f => endswith ".bmp" (lower f))
                   (f_name <$> listing)) in
  let all_rows :=
    omap (table_row strftime listing folder outcome_filter) bmp_files in
  refresh_page (Viewer all_rows 10 0 [] None).

End FolderViewer.

(* ===================================================================== *)
(** * Specification-level notions                                         *)
(* ===================================================================== *)

(** ** Identity derivation *)

(** The text before the last occurrence of [c] in [s]; [None] when [c]
    does not occur. *)
Fixpoint before_last (c : ascii) (s : string) : option string :=
  match s with
  | EmptyString => None
  | String a r =>
      match before_last c r with
      | Some p => Some (String a p)
      | None => if Ascii.eqb a c then Some EmptyString else None
      end
  end.

(** "base_name = filename without extension". *)
Definition base_name (file : string) : string :=
  default file (before_last "." file).

(** "identity = base_name minus its last underscore-delimited segment, or
    the whole base name if no underscore is present". *)
Definition identity_spec (file : string) : string :=
  let base := base_name file in
  default base (before_last "_" base).

(** ** Ingestion *)

(** The files ingestion does not pass over: those whose lower-cased name
    ends in [.txt]. *)
Definition is_status_file (f : file_entry) : bool :=
  endswith ".txt" (lower (f_name f)).

(** The text [load_txt] hands back for a given outcome of the read. *)
Definition loaded (read : result string) : string :=
  match read with Ok text => strip text | Raise _ => "" end.

(** The record ingestion appends for a status file found under [root]. *)
Definition event_of_file (root : string) (f : file_entry) : event :=
  let content := loaded (f_read f) in
  Event (f_mtime f) (txt_is_pass content) (path_join root (f_name f)) content.

(** The full paths of the status files of a walk, in visiting order. *)
Definition status_paths (w : walk) : list string :=
  w ≫= (fun '(root, files) =>
          (fun f => path_join root (f_name f))
            <$> List.filter is_status_file files).

(** The [path] fields of all records of a grouped-record map. *)
Definition record_paths (data : gmap string (list event)) : list string :=
  map_to_list data ≫= (fun kv => path <$> kv.2).

(** "A same-named image file in the same directory (matched by base
    name)": some file of the directory is a [.bmp] with the base name of
    the status file [txt], the pairing [FolderViewer.populate_table]
    uses. *)
Definition image_paired (files : list file_entry) (txt : string) : bool :=
  existsb (fun g => endswith ".bmp" (lower (f_name g))
                    && String.eqb (drop_last 4 (f_name g)) (drop_last 4 txt))
          files.

(** ** Cause labels *)

(** A label the cause loops pass over because it belongs to the
    [Job.Pass] / [Job.Fail] family: its normalized form starts with
    [JOB.PASS] or [JOB.FAIL]. *)
Definition is_job_label (lbl : string) : bool :=
  startswith "JOB.PASS" (normalize lbl) || startswith "JOB.FAIL" (normalize lbl).

(** A label carrying an explicit OK marker. *)
Definition is_ok_label (lbl : string) : bool :=
  endswith ":OK" (normalize lbl) || endswith "=OK" (normalize lbl).

(** The labels of a status text that the cause loops record. *)
Definition cause_labels (content : string) : list string :=
  List.filter (fun lbl => negb (is_job_label lbl) && negb (is_ok_label lbl))
              (labels_of content).

(** "matches the pass or fail marker": the normalized label equals
    [JOB.PASS:1] or [JOB.FAIL:1] exactly. *)
Definition matches_marker (lbl : string) : bool :=
  String.eqb (normalize lbl) "JOB.PASS:1"
  || String.eqb (normalize lbl) "JOB.FAIL:1".

(** The cause labels as the specification words them: every label that
    matches neither marker and carries no OK suffix. *)
Definition spec_cause_labels (content : string) : list string :=
  List.filter (fun lbl => negb (matches_marker lbl) && negb (is_ok_label lbl))
              (labels_of content).

(** Appending one path under each of a list of labels, in order. *)
Definition record_causes (p : string) (lbls : list string)
    (causes : gmap string (list string)) : gmap string (list string) :=
  fold_left (fun c lbl => dd_append lbl p c) lbls causes.

(** ** Heartbeat buckets *)

(** [bins[binned_ts][...] += 1]: the effect of [bump] on the bins of
    its prefix. *)
Definition add_to_bins (bins : gmap Z counts) (ev : event) : gmap Z counts :=
  let b := binned_ts (ts ev) in
  let c := default (Counts 0 0) (bins !! b) in
  <[b := if is_pass ev then Counts (pass_count c + 1) (fail_count c)
         else Counts (pass_count c) (fail_count c + 1)]> bins.

(** The events of bucket [b] with the given verdict. *)
Definition in_bucket (b : Z) (verdict : bool) (ev : event) : bool :=
  Z.eqb (binned_ts (ts ev)) b && Bool.eqb (is_pass ev) verdict.

Definition bucket_count (b : Z) (verdict : bool) (events : list event) : nat :=
  length (List.filter (in_bucket b verdict) events).

(** ** Filtering *)

(** An event survives the filter when none of the [continue] tests fires. *)
Definition keep (spec : filter_spec) (ev : event) : bool :=
  negb (skipped spec ev).

(** The filter as a function on what the dicts denote. *)
Definition filter_view (spec : filter_spec) (v : gmap string (list event))
  : gmap string (list event) :=
  List.filter (keep spec) <$> v.

(** Body of the loop [for prefix, events in data.items()] of
    [apply_filters], with the new dict at [filtered]. *)
Definition filter_group (spec : filter_spec) (filtered : loc)
  : string * loc -> St unit :=
  fun '(prefix, events) =>
    out ← alloc (OList []);
    evs ← list_items events;
    for_each evs (fun ev =>
      if skipped spec ev then mret tt else list_append out ev) ;;
    dict_setitem filtered prefix out.

(** What the new dict denotes after the loop has seen [items], when it
    denoted [w] before. *)
Definition filtered_items (spec : filter_spec) (h : store)
    (items : list (string * loc)) (w : gmap string (list event))
  : gmap string (list event) :=
  fold_left
    (fun w '(k, l) =>
       <[k := List.filter (keep spec) (default [] (read_list h l))]> w)
    items w.

(** Loop invariant: every key of the new dict [md] refers to one of the
    lists [outs] allocated after it, and [w] maps the key to that list's
    contents. *)
Definition represents (base : nat) (md : gmap string loc) (outs : list obj)
    (w : gmap string (list event)) : Prop :=
  ∀ k, match md !! k with
       | Some l => ∃ j es, l = base + j ∧ outs !! j = Some (OList es)
                           ∧ w !! k = Some es
       | None => w !! k = None
       end.

(** ** Shapes of labels *)

(** [c in s]. *)
Fixpoint has_char (c : ascii) (s : string) : bool :=
  match s with
  | EmptyString => false
  | String a r => Ascii.eqb a c || has_char c r
  end.

(** The first and the last character of a string. *)
Definition first_char (s : string) : option ascii :=
  match s with EmptyString => None | String a _ => Some a end.

Fixpoint last_char (s : string) : option ascii :=
  match s with
  | EmptyString => None
  | String a EmptyString => Some a
  | String _ r => last_char r
  end.

(** ** Grouping *)

(** The values paired with key [k] in an association list, in order. *)
Definition values_for `{EqDecision K} {V} (k : K) (kvs : list (K * V))
  : list V :=
  omap (fun kv => if decide (kv.1 = k) then Some kv.2 else None) kvs.

(** A [defaultdict(list)] has an entry only where something was appended. *)
Definition nonempty {A} (l : list A) : option (list A) :=
  match l with [] => None | _ => Some l end.

(** The records of the status files of a walk, each with the key it is
    filed under, in visiting order. *)
Definition walk_events (w : walk) : list (string * event) :=
  w ≫= (fun '(root, files) =>
          (fun f => (prefix_of_file (f_name f), event_of_file root f))
            <$> List.filter is_status_file files).

(** The (label, path) pairs a record contributes to a cause map. *)
Definition cause_pairs (ev : event) : list (string * string) :=
  if is_pass ev then []
  else (fun lbl => (lbl, path ev)) <$> cause_labels (content ev).

(** All records of a grouped-record map, group after group, in the order
    a loop over [d.items()] meets them. *)
Definition all_events (data : gmap string (list event)) : list event :=
  map_to_list data ≫= snd.

(** The condition under which a record survives the filter: its date is
    not before the start date and not after the end date (each when
    valid), and its verdict is the one asked for. *)
Definition selected (spec : filter_spec) (ev : event) : Prop :=
  (∀ s, start_date spec = Some s → (s ≤ date_of (ts ev))%Z)
  ∧ (∀ e, end_date spec = Some e → (date_of (ts ev) ≤ e)%Z)
  ∧ match outcome_filter spec with
    | All => True
    | Pass => is_pass ev = true
    | Fail => is_pass ev = false
    end.

(** What the dict returned by [apply_filters] denotes. *)
Definition filtered_by (spec : filter_spec) (h : store) (data : loc)
  : option (gmap string (list event)) :=
  match apply_filters spec data h with
  | Some (filtered, h') => read_dict h' filtered
  | None => None
  end.

(* ===================================================================== *)
(** * The remaining aggregations and views                                *)
(* ===================================================================== *)

(** ** [update_dashboard]: totals and gauges *)

(** [sum(len(v) for v in self.filtered_data.values())] *)
Definition total_count (filtered_data : gmap string (list event)) : Z :=
  fold_left (fun acc '(prefix, v) => (acc + Z.of_nat (length v))%Z)
            (map_to_list filtered_data) 0%Z.

(** [sum(sum(1 for ev in v if ev["is_pass"]) for v in ...values())] *)
Definition total_pass (filtered_data : gmap string (list event)) : Z :=
  fold_left
    (fun acc '(prefix, v) =>
       (acc + fold_left (fun n ev => if is_pass ev then n + 1 else n) v 0)%Z)
    (map_to_list filtered_data) 0%Z.

Definition total_fail (filtered_data : gmap string (list event)) : Z :=
  (total_count filtered_data - total_pass filtered_data)%Z.

(** The [(title, val, max_val, color)] tuples handed to [create_gauge]. *)
Definition gauges (filtered_data : gmap string (list event))
  : list (string * Z * Z * string) :=
  let total_count := total_count filtered_data in
  let total_pass := total_pass filtered_data in
  let total_fail := (total_count - total_pass)%Z in
  let max_val := if (total_count >? 0)%Z then total_count else 1%Z in
  [("Total", total_count, max_val, "blue");
   ("Pass", total_pass, max_val, "green");
   ("Fail", total_fail, max_val, "red")].

(** [create_gauge]: the bar height and the upper limit [max(maximum, 1)]
    of the axis it is drawn on. *)
Definition create_gauge (value maximum : Z) : Z * Z :=
  (value, Z.max maximum 1).

(** ** Cumulative series *)

(** The loop over [sorted_ev] of [_render_time_chart]: the [x_vals] and
    [y_vals] it builds, with the running count. *)
Definition time_points (cumulative : bool) (sorted_ev : list event)
  : list Z * list Z * Z :=
  fold_left
    (fun '(x_vals, y_vals, running) ev =>
       if cumulative
       then (x_vals ++ [ts ev], y_vals ++ [(running + 1)%Z], (running + 1)%Z)
       else (x_vals ++ [ts ev], y_vals ++ [1%Z], running))
    sorted_ev ([], [], 0%Z).

(** The series [_render_time_chart] draws for one prefix; [None] when it
    draws none ([if not sorted_ev: continue]). *)
Definition render_time_chart (cumulative : bool) (events : list event)
  : option (list Z * list Z) :=
  let sorted_ev := py_sorted (fun a b => (ts a <? ts b)%Z) events in
  match sorted_ev with
  | [] => None
  | _ => let '(x_vals, y_vals, _) := time_points cumulative sorted_ev in
         Some (x_vals, y_vals)
  end.

(** [render_cumulative_chart]: one series per prefix that has events. *)
Definition render_cumulative_chart (filtered_data : gmap string (list event))
  : list (string * (list Z * list Z)) :=
  omap (fun '(prefix, events) =>
          pair prefix <$> render_time_chart true events)
       (map_to_list filtered_data).

(** The step series of [update_dashboard] for one prefix; [None] when
    [x_vals] stays empty ([if x_vals:]). *)
Definition dashboard_steps (events : list event) : option (list Z * list Z) :=
  let sorted_ev := py_sorted (fun a b => (ts a <? ts b)%Z) events in
  let '(x_vals, y_vals, total) :=
    fold_left
      (fun '(x_vals, y_vals, total) ev =>
         (x_vals ++ [ts ev], y_vals ++ [(total + 1)%Z], (total + 1)%Z))
      sorted_ev ([], [], 0%Z) in
  match x_vals with
  | [] => None
  | _ => Some (x_vals, y_vals)
  end.

(** ** [render_summary_chart] *)

(** [{k: len(v) for k, v in self.filtered_data.items()}] *)
Definition summary_counts (filtered_data : gmap string (list event))
  : gmap string nat :=
  fold_left (fun acc '(k, v) => <[k := length v]> acc)
            (map_to_list filtered_data) ∅.

(** ** [render_heartbeat_chart]: what is plotted *)

(** [times], [pass_vals] and [fail_vals] of one prefix. *)
Definition heartbeat_series (bins : gmap Z counts)
  : list Z * list nat * list nat :=
  let times := py_sorted Z.ltb (map_to_list bins).*1 in
  (times,
   (fun t => pass_count (default (Counts 0 0) (bins !! t))) <$> times,
   (fun t => fail_count (default (Counts 0 0) (bins !! t))) <$> times).

(** [self.outcome_filter in ("All", "Pass")] and
    [self.outcome_filter in ("All", "Fail")]. *)
Definition show_pass (o : outcome) : bool :=
  match o with All | Pass => true | Fail => false end.

Definition show_fail (o : outcome) : bool :=
  match o with All | Fail => true | Pass => false end.

(** The number of records a bins table accounts for. *)
Definition bins_total (bins : gmap Z counts) : nat :=
  sum_list_with (fun kv => pass_count kv.2 + fail_count kv.2)
                (map_to_list bins).

(** ** Paging *)

(** The rows of page [k]: what [refresh_page] puts into the table when
    [current_page] is [k]. *)
Definition page_rows (v : FolderViewer.t) (k : nat) : list FolderViewer.row :=
  FolderViewer.slice (k * FolderViewer.page_size v)
                     (k * FolderViewer.page_size v + FolderViewer.page_size v)
                     (FolderViewer.all_rows v).

(** The viewer displays its current page: the state every [refresh_page]
    leaves. *)
Definition displays_current_page (v : FolderViewer.t) : Prop :=
  FolderViewer.table v = page_rows v (FolderViewer.current_page v)
  ∧ FolderViewer.image v
    = FolderViewer.r_img_path <$> head (FolderViewer.table v).

(** The user actions on a viewer. *)
Inductive action : Type :=
  | FirstPage
  | PrevPage
  | NextPage
  | LastPage
  | ChangePageSize (size : nat)
  | RowClicked (row col : Z).

Definition act (v : FolderViewer.t) (a : action) : FolderViewer.t :=
  match a with
  | FirstPage => FolderViewer.first_page v
  | PrevPage => FolderViewer.prev_page v
  | NextPage => FolderViewer.next_page v
  | LastPage => FolderViewer.last_page v
  | ChangePageSize size => FolderViewer.change_page_size size v
  | RowClicked row col => FolderViewer.row_clicked row col v
  end.

(** An action that keeps the page size positive. *)
Definition sane (a : action) : Prop :=
  match a with ChangePageSize size => 0 < size | _ => True end.

(** The state every reachable viewer is in: it holds the rows it was
    opened with, its page size is positive, its table is the current page
    and the current page starts inside the row list. *)
Definition valid (rows : list FolderViewer.row) (v : FolderViewer.t) : Prop :=
  FolderViewer.all_rows v = rows
  ∧ 0 < FolderViewer.page_size v
  ∧ FolderViewer.table v = page_rows v (FolderViewer.current_page v)
  ∧ (FolderViewer.current_page v * FolderViewer.page_size v < length rows
     ∨ (rows = [] ∧ FolderViewer.current_page v = 0)).

(** [a <= b] in Python's order on strings: not [b < a]. *)
Definition str_le (a b : string) : Prop := String.ltb b a = false.

(* ===================================================================== *)
(** * Facts about the string operations                                   *)
(* ===================================================================== *)

Section StringFacts.

Lemma split_nonempty c s : split c s ≠ [].
  Proof.
    destruct s as [|a r]; simpl; [done|].
    destruct (Ascii.eqb a c); [done|]. by destruct (split c r).
  Qed.

Lemma join_cons_char sep a p ps :
    join sep (String a p :: ps) = String a (join sep (p :: ps)).
  Proof. by destruct ps. Qed.

Lemma init_cons2 {A} (x y : A) l : init (x :: y :: l) = x :: init (y :: l).
  Proof. done. Qed.

Lemma join_cons2 sep x y l :
    join sep (x :: y :: l) = x +:+ sep +:+ join sep (y :: l).
  Proof. done. Qed.

Lemma split_before_last c s :
    match before_last c s with
    | None => split c s = [s]
    | Some r =>
        (1 < length (split c s))%nat
        ∧ join (String c EmptyString) (init (split c s)) = r
    end.
  Proof.
    induction s as [|a r IH]; cbn [before_last split]; [done|].
    destruct (before_last c r) as [p|] eqn:Hb.
    - destruct IH as [Hlen Hjoin].
      destruct (split c r) as [|q [|q' qs]] eqn:Hs; simpl in Hlen; try lia.
      rewrite init_cons2 in Hjoin.
      destruct (Ascii.eqb_spec a c) as [->|Hne].
      + split; [simpl; lia|].
        rewrite !init_cons2, join_cons2, Hjoin. done.
      + split; [simpl; lia|].
        rewrite init_cons2, join_cons_char, Hjoin. done.
    - rewrite IH. destruct (Ascii.eqb_spec a c) as [->|Hne]; [|done].
      split; [simpl; lia|done].
  Qed.

Lemma prefix_of_base base :
    (let parts := split "_" base in
     if (1 <? length parts)%nat then join "_" (init parts)
     else default "" (parts !! 0%nat))
    = default base (before_last "_" base).
  Proof.
    pose proof (split_before_last "_" base) as H. simpl.
    destruct (before_last "_" base) as [r|]; simpl.
    - destruct H as [Hlen <-].
      destruct (Nat.ltb_spec 1 (length (split "_" base))); [done|lia].
    - by rewrite H.
  Qed.

Lemma length_map_chars f s : String.length (map_chars f s) = String.length s.
  Proof. induction s; simpl; congruence. Qed.

Lemma endswith_cons suf a s :
    (String.length suf ≤ String.length s)%nat →
    endswith suf (String a s) = endswith suf s.
  Proof.
    intros Hle. unfold endswith.
    replace (String.length (String a s) - String.length suf)%nat
      with (S (String.length s - String.length suf)) by (simpl; lia).
    simpl String.substring.
    rewrite (proj2 (Nat.leb_le _ _) Hle).
    assert (String.length suf ≤ String.length (String a s))%nat as Hle'
      by (simpl; lia).
    by rewrite (proj2 (Nat.leb_le _ _) Hle').
  Qed.

Lemma drop_last_cons n a s :
    (n ≤ String.length s)%nat →
    drop_last n (String a s) = String a (drop_last n s).
  Proof.
    intros Hle. unfold drop_last.
    replace (String.length (String a s) - n)%nat
      with (S (String.length s - n)) by (simpl; lia).
    done.
  Qed.

Lemma lower_char_dot c : lower_char c = "."%char → c = "."%char.
  Proof.
    destruct c as [[] [] [] [] [] [] [] []]; vm_compute; congruence.
  Qed.

Lemma lower_char_not_dot c x :
    lower_char c = x → x ≠ "."%char → Ascii.eqb c "." = false.
  Proof.
    intros <- Hx. destruct (Ascii.eqb_spec c "."); [subst; done|done].
  Qed.

Lemma before_last_dot_txt file :
    endswith ".txt" (lower file) = true →
    before_last "." file = Some (drop_last 4 file).
  Proof.
    induction file as [|a r IH]; [done|].
    intros Hend.
    destruct (Nat.le_gt_cases 4 (String.length r)) as [Hlen|Hlen].
    - unfold lower in *. cbn [map_chars] in Hend.
      rewrite endswith_cons in Hend by (rewrite length_map_chars; done).
      rewrite drop_last_cons by done.
      cbn [before_last]. by rewrite IH.
    - destruct r as [|b [|c [|d [|e r]]]]; try done; [|simpl in Hlen; lia].
      unfold endswith in Hend. simpl in Hend.
      destruct (Ascii.eqb_spec (lower_char a) ".") as [Ha|]; [|done].
      destruct (Ascii.eqb_spec (lower_char b) "t") as [Hb|]; [|done].
      destruct (Ascii.eqb_spec (lower_char c) "x") as [Hc|]; [|done].
      destruct (Ascii.eqb_spec (lower_char d) "t") as [Hd|]; [|done].
      apply lower_char_dot in Ha as ->.
      cbn [before_last].
      rewrite (lower_char_not_dot _ _ Hd), (lower_char_not_dot _ _ Hc),
        (lower_char_not_dot _ _ Hb) by done.
      done.
  Qed.

Lemma drop_ext_base_name file :
    endswith ".txt" (lower file) = true → drop_last 4 file = base_name file.
  Proof.
    intros H. unfold base_name. by rewrite (before_last_dot_txt _ H).
  Qed.

Lemma prefix_of_file_spec file :
    endswith ".txt" (lower file) = true →
    prefix_of_file file = identity_spec file.
  Proof.
    intros H. unfold prefix_of_file, identity_spec.
    rewrite <- (drop_ext_base_name _ H). apply prefix_of_base.
  Qed.
End StringFacts.

(* ===================================================================== *)
(** * Ingestion                                                           *)
(* ===================================================================== *)

Section Ingestion.
Implicit Types (st : ingest_state) (f : file_entry) (root : string).

Lemma load_txt_ok (read : result string) : load_txt read = Ok (loaded read).
Proof. by destruct read. Qed.

Lemma parse_file_skip root st f :
  is_status_file f = false → parse_file root st f = Ok st.
Proof. unfold is_status_file, parse_file. by intros ->. Qed.

Lemma parse_file_status root st f :
  is_status_file f = true →
  parse_file root st f =
    Ok (dd_append (prefix_of_file (f_name f)) (event_of_file root f) st.1,
        fold_left
          (collect_cause (txt_is_pass (loaded (f_read f)))
                         (path_join root (f_name f)))
          (labels_of (loaded (f_read f))) st.2).
Proof.
  unfold is_status_file, parse_file. intros ->. simpl.
  by rewrite load_txt_ok.
Qed.

Lemma record_paths_dd_append k e (d : gmap string (list event)) :
  record_paths (dd_append k e d) ≡ₚ record_paths d ++ [path e].
Proof.
  unfold record_paths, dd_append.
  destruct (d !! k) as [l|] eqn:Hk; simpl.
  - rewrite <- (insert_delete_eq d k (l ++ [e])).
    rewrite <- (insert_delete_id d k l) at 2 by done.
    rewrite !map_to_list_insert by apply lookup_delete_eq.
    simpl. rewrite fmap_app. simpl.
    rewrite <- !app_assoc. f_equiv. apply Permutation_app_comm.
  - rewrite map_to_list_insert by done. simpl.
    apply Permutation_cons_append.
Qed.

Lemma parse_files_paths root files st :
  ∃ st', foldM (parse_file root) st files = Ok st'
    ∧ record_paths st'.1 ≡ₚ
        record_paths st.1
        ++ ((fun f => path_join root (f_name f))
              <$> List.filter is_status_file files).
Proof.
  revert st. induction files as [|f files IH]; intros st; simpl.
  - exists st. by rewrite app_nil_r.
  - destruct (is_status_file f) eqn:Hf.
    + rewrite parse_file_status by done. simpl.
      destruct (IH (dd_append (prefix_of_file (f_name f)) (event_of_file root f) st.1,
        fold_left
          (collect_cause (txt_is_pass (loaded (f_read f)))
                         (path_join root (f_name f)))
          (labels_of (loaded (f_read f))) st.2)) as (st' & -> & Hp).
      exists st'. split; [done|]. rewrite Hp. simpl.
      rewrite record_paths_dd_append. by rewrite <- app_assoc.
    + rewrite parse_file_skip by done. simpl. apply IH.
Qed.

Lemma parse_walk_paths (w : walk) st :
  ∃ st',
    foldM (fun st '(root, files) => foldM (parse_file root) st files) st w
    = Ok st'
    ∧ record_paths st'.1 ≡ₚ record_paths st.1 ++ status_paths w.
Proof.
  revert st. induction w as [|[root files] w IH]; intros st; simpl.
  - exists st. by rewrite app_nil_r.
  - destruct (parse_files_paths root files st) as (st1 & -> & H1). simpl.
    destruct (IH st1) as (st' & -> & H2).
    exists st'. split; [done|]. rewrite H2, H1.
    unfold status_paths. simpl. by rewrite <- app_assoc.
Qed.

End Ingestion.

(* ===================================================================== *)
(** * Classification and cause labels                                     *)
(* ===================================================================== *)

Section Causes.
Implicit Types (causes cc : gmap string (list string)) (lbl p : string).

Lemma txt_is_pass_existsb text :
  txt_is_pass text
  = existsb (fun lbl => String.eqb (normalize lbl) "JOB.PASS:1")
            (labels_of text).
Proof.
  unfold txt_is_pass.
  destruct (existsb _ (labels_of text)); [done|].
  by destruct (existsb _ (labels_of text)).
Qed.

Lemma txt_is_pass_true text :
  txt_is_pass text = true
  ↔ ∃ lbl, lbl ∈ labels_of text ∧ normalize lbl = "JOB.PASS:1".
Proof.
  rewrite txt_is_pass_existsb, existsb_exists. split.
  - intros (lbl & Hin & Heq). exists lbl.
    split; [by apply list_elem_of_In|by apply String.eqb_eq].
  - intros (lbl & Hin & Heq). exists lbl.
    split; [by apply list_elem_of_In|by apply String.eqb_eq].
Qed.

Lemma collect_cause_fail p causes lbl :
  collect_cause false p causes lbl
  = if negb (is_job_label lbl) && negb (is_ok_label lbl)
    then dd_append lbl p causes else causes.
Proof.
  unfold collect_cause, is_job_label, is_ok_label, normalize. simpl.
  destruct (_ || _); [done|]. by destruct (_ || _).
Qed.

Lemma collect_cause_pass p causes lbl : collect_cause true p causes lbl = causes.
Proof.
  unfold collect_cause. simpl.
  destruct (_ || _); [done|]. by destruct (_ || _).
Qed.

Lemma count_cause_spec p cc lbl :
  count_cause p cc lbl
  = if negb (is_job_label lbl) && negb (is_ok_label lbl)
    then dd_append lbl p cc else cc.
Proof.
  unfold count_cause, is_job_label, is_ok_label, normalize. simpl.
  destruct (_ || _); [done|]. by destruct (_ || _).
Qed.

Lemma fold_collect_fail p lbls causes :
  fold_left (collect_cause false p) lbls causes
  = record_causes p
      (List.filter (fun lbl => negb (is_job_label lbl) && negb (is_ok_label lbl))
                   lbls)
      causes.
Proof.
  revert causes. induction lbls as [|lbl lbls IH]; intros causes; [done|].
  simpl. rewrite collect_cause_fail, IH.
  by destruct (negb (is_job_label lbl) && negb (is_ok_label lbl)).
Qed.

Lemma fold_collect_pass p lbls causes :
  fold_left (collect_cause true p) lbls causes = causes.
Proof.
  revert causes. induction lbls as [|lbl lbls IH]; intros causes; [done|].
  simpl. by rewrite collect_cause_pass, IH.
Qed.

Lemma fold_count_cause p lbls cc :
  fold_left (count_cause p) lbls cc
  = record_causes p
      (List.filter (fun lbl => negb (is_job_label lbl) && negb (is_ok_label lbl))
                   lbls)
      cc.
Proof.
  revert cc. induction lbls as [|lbl lbls IH]; intros cc; [done|].
  simpl. rewrite count_cause_spec, IH.
  by destruct (negb (is_job_label lbl) && negb (is_ok_label lbl)).
Qed.

Lemma count_event_fail cc (ev : event) :
  is_pass ev = false →
  count_event cc ev = record_causes (path ev) (cause_labels (content ev)) cc.
Proof.
  intros Hf. unfold count_event. rewrite Hf. simpl. apply fold_count_cause.
Qed.

Lemma count_event_pass cc (ev : event) :
  is_pass ev = true → count_event cc ev = cc.
Proof. intros Hp. unfold count_event. by rewrite Hp. Qed.

End Causes.



(** C2 (as stated) fails: [Job.Pass:0] matches neither marker exactly and
    has no OK suffix, so the claim lists it as a cause of this Fail record,
    but both cause loops pass over it. *)
Lemma job_prefixed_label_is_not_a_cause :
  let content := "Job.Pass:0, Job.Fail:1" in
  txt_is_pass content = false
  ∧ spec_cause_labels content = ["Job.Pass:0"]
  ∧ fold_left (collect_cause (txt_is_pass content) "/data/u_1.txt")
              (labels_of content) ∅ = ∅
  ∧ count_event ∅ (Event 0 false "/data/u_1.txt" content) = ∅.
Proof. vm_compute. done. Qed.

(** C2 (amended): for a record classified Fail, the paths recorded by
    ingestion and by the failure-cause chart are recorded under exactly
    the trimmed non-empty comma-separated tokens whose normalized form
    neither starts with [JOB.PASS] or [JOB.FAIL] nor ends in [:OK] or
    [=OK]; for ["Voltage:Low, Job.Fail:1"] the verdict is Fail and the
    causes are [["Voltage:Low"]]. *)
Theorem fail_record_cause_labels root st f :
  is_status_file f = true →
  txt_is_pass (loaded (f_read f)) = false →
  parse_file root st f
  = Ok (dd_append (prefix_of_file (f_name f)) (event_of_file root f) st.1,
        record_causes (path_join root (f_name f))
                      (cause_labels (loaded (f_read f))) st.2)
  ∧ (∀ cc, count_event cc (event_of_file root f)
           = record_causes (path_join root (f_name f))
                           (cause_labels (loaded (f_read f))) cc)
  ∧ txt_is_pass "Voltage:Low, Job.Fail:1" = false
  ∧ cause_labels "Voltage:Low, Job.Fail:1" = ["Voltage:Low"].
Proof.
  intros Hst Hfail. split; [|split; [|by vm_compute]].
  - rewrite parse_file_status by done. rewrite Hfail.
    by rewrite fold_collect_fail.
  - intros cc. by rewrite count_event_fail.
Qed.

Lemma fail_record_cause_labels_witness :
  parse_file "/data" (∅, ∅)
    (FileEntry "unitA_001.txt" 45 (Ok "Voltage:Low, Job.Fail:1"))
  = Ok ({[ "unitA" := [Event 45 false "/data/unitA_001.txt"
                             "Voltage:Low, Job.Fail:1"] ]},
        {[ "Voltage:Low" := ["/data/unitA_001.txt"] ]}).
Proof.
  refine (eq_trans
    (proj1 (fail_record_cause_labels "/data" (∅, ∅)
      (FileEntry "unitA_001.txt" 45 (Ok "Voltage:Low, Job.Fail:1")) _ _)) _);
  vm_compute; reflexivity.
Defined.

(** C4: a status text with at least one label whose normalized form is
    exactly [JOB.PASS:1] is classified Pass whatever its other labels are,
    and no cause label is recorded for it: ingestion leaves the failure
    cause index as it was and the failure-cause chart adds nothing. *)
Theorem pass_marker_takes_precedence content :
  (∃ lbl, lbl ∈ labels_of content ∧ normalize lbl = "JOB.PASS:1") →
  txt_is_pass content = true
  ∧ (∀ root st f,
       is_status_file f = true → loaded (f_read f) = content →
       parse_file root st f
       = Ok (dd_append (prefix_of_file (f_name f))
                       (Event (f_mtime f) true (path_join root (f_name f))
                              content) st.1,
             st.2))
  ∧ (∀ cc t p, count_event cc (Event t (txt_is_pass content) p content) = cc).
Proof.
  intros Hmark. apply txt_is_pass_true in Hmark as Hpass.
  split; [done|]. split.
  - intros root st f Hst Hload.
    rewrite parse_file_status by done. unfold event_of_file.
    by rewrite Hload, Hpass, fold_collect_pass.
  - intros cc t p. apply count_event_pass. done.
Qed.

Lemma pass_marker_takes_precedence_witness :
  txt_is_pass "Job.Fail:1, job. pass:1, Temp:25C" = true.
Proof.
  apply (pass_marker_takes_precedence "Job.Fail:1, job. pass:1, Temp:25C").
  exists "job. pass:1". split; [|vm_compute; reflexivity].
  vm_compute. apply list_elem_of_further, list_elem_of_here.
Defined.

(** C5: a status text none of whose labels is a pass or a fail marker is
    classified Fail.  [load_txt] never raises: a read that fails yields the
    empty text, which is classified Fail and has no cause labels, so
    ingestion records the unreadable file as a Fail record with empty
    content and an unchanged cause index. *)
Theorem default_to_fail :
  (∀ text,
     (∀ lbl, lbl ∈ labels_of text →
             normalize lbl ≠ "JOB.PASS:1" ∧ normalize lbl ≠ "JOB.FAIL:1") →
     txt_is_pass text = false)
  ∧ (∀ read, ∃ content, load_txt read = Ok content)
  ∧ (∀ e, load_txt (Raise e) = Ok "")
  ∧ txt_is_pass "" = false
  ∧ cause_labels "" = []
  ∧ (∀ root st f e,
       is_status_file f = true → f_read f = Raise e →
       parse_file root st f
       = Ok (dd_append (prefix_of_file (f_name f))
                       (Event (f_mtime f) false (path_join root (f_name f)) "")
                       st.1,
             st.2)).
Proof.
  split; [|split; [|split; [|split; [|split]]]]; try done.
  - intros text Hno.
    destruct (txt_is_pass text) eqn:Hp; [|done].
    apply txt_is_pass_true in Hp as (lbl & Hin & Heq).
    by destruct (Hno lbl Hin).
  - intros read. exists (loaded read). apply load_txt_ok.
  - intros root st f e Hst Hread.
    rewrite parse_file_status by done. unfold event_of_file.
    by rewrite Hread.
Qed.

Lemma default_to_fail_witness : txt_is_pass "Sensor:OK, Temp:25C" = false.
Proof.
  apply (proj1 default_to_fail).
  intros lbl Hin. vm_compute in Hin.
  apply elem_of_cons in Hin as [->|Hin];
    [split; vm_compute; discriminate|].
  apply elem_of_cons in Hin as [->|Hin];
    [split; vm_compute; discriminate|].
  by apply not_elem_of_nil in Hin.
Defined.

(** C6: the key under which ingestion files a status file is its base name
    (the name without its extension) without the last underscore-delimited
    segment, or the whole base name when it has no underscore.  With the
    files [unitA_001], [unitA_002] and [unitB] (each a [.txt] and a [.bmp])
    the result has two records under [unitA] and one under [unitB]. *)
Theorem identity_of_status_file root st f :
  is_status_file f = true →
  prefix_of_file (f_name f) = identity_spec (f_name f)
  ∧ (∃ causes,
       parse_file root st f
       = Ok (dd_append (identity_spec (f_name f)) (event_of_file root f) st.1,
             causes))
  ∧ (∀ t1 r1 t2 r2 t3 r3 t4 r4 t5 r5 t6 r6,
       let a1 := FileEntry "unitA_001.txt" t1 r1 in
       let a2 := FileEntry "unitA_002.txt" t3 r3 in
       let b := FileEntry "unitB.txt" t5 r5 in
       ∃ causes,
         parse_folder_data
           [("/data", [FileEntry "unitA_001.bmp" t2 r2; a1;
                       FileEntry "unitA_002.bmp" t4 r4; a2;
                       FileEntry "unitB.bmp" t6 r6; b])]
         = Ok ({[ "unitA" := [event_of_file "/data" a1;
                              event_of_file "/data" a2];
                  "unitB" := [event_of_file "/data" b] ]},
               causes)).
Proof.
  intros Hst. split; [by apply prefix_of_file_spec|]. split.
  - eexists. rewrite parse_file_status by done.
    by rewrite prefix_of_file_spec.
  - intros. unfold parse_folder_data. cbn [foldM mbind result_bind].
    rewrite (parse_file_skip _ _ (FileEntry "unitA_001.bmp" t2 r2)) by done.
    cbn [mbind result_bind].
    rewrite (parse_file_status _ _ a1) by done. cbn [mbind result_bind].
    rewrite (parse_file_skip _ _ (FileEntry "unitA_002.bmp" t4 r4)) by done.
    cbn [mbind result_bind].
    rewrite (parse_file_status _ _ a2) by done. cbn [mbind result_bind].
    rewrite (parse_file_skip _ _ (FileEntry "unitB.bmp" t6 r6)) by done.
    cbn [mbind result_bind].
    rewrite (parse_file_status _ _ b) by done. cbn [mbind result_bind].
    eexists. reflexivity.
Qed.

Lemma identity_of_status_file_witness :
  prefix_of_file "unit_A_001.TXT" = "unit_A".
Proof.
  refine (eq_trans
    (proj1 (identity_of_status_file "/data" (∅, ∅)
              (FileEntry "unit_A_001.TXT" 0 (Ok "")) _)) _);
  vm_compute; reflexivity.
Defined.

Section CauseKeys.
Implicit Types (lbl p : string).

Lemma not_job_label_not_pass lbl :
  is_job_label lbl = false → String.eqb (normalize lbl) "JOB.PASS:1" = false.
Proof.
  unfold is_job_label. intros H.
  destruct (String.eqb_spec (normalize lbl) "JOB.PASS:1") as [Heq|]; [|done].
  by rewrite Heq in H.
Qed.

Lemma single_cause_is_fail content lbl :
  labels_of content = [lbl] → is_job_label lbl = false →
  txt_is_pass content = false.
Proof.
  intros Hl Hj. rewrite txt_is_pass_existsb, Hl. simpl.
  by rewrite not_job_label_not_pass.
Qed.

Lemma single_cause_labels content lbl :
  labels_of content = [lbl] → is_job_label lbl = false →
  is_ok_label lbl = false → cause_labels content = [lbl].
Proof. intros Hl Hj Hok. unfold cause_labels. rewrite Hl. simpl. by rewrite Hj, Hok. Qed.

Lemma record_two_causes l1 l2 p1 p2 :
  l1 ≠ l2 →
  record_causes p2 [l2] (record_causes p1 [l1] ∅)
  = {[ l1 := [p1]; l2 := [p2] ]}.
Proof.
  intros Hne. unfold record_causes, dd_append. simpl.
  rewrite lookup_empty. simpl.
  rewrite lookup_insert_ne by done. rewrite lookup_empty. simpl.
  rewrite <- insert_empty. by rewrite insert_insert_ne.
Qed.

Lemma parse_file_fail root st f :
  is_status_file f = true →
  txt_is_pass (loaded (f_read f)) = false →
  parse_file root st f
  = Ok (dd_append (prefix_of_file (f_name f)) (event_of_file root f) st.1,
        record_causes (path_join root (f_name f))
                      (cause_labels (loaded (f_read f))) st.2).
Proof.
  intros Hst Hfail. rewrite parse_file_status by done. rewrite Hfail.
  by rewrite fold_collect_fail.
Qed.

End CauseKeys.



(* ===================================================================== *)
(** * Heartbeat buckets                                                   *)
(* ===================================================================== *)

Section Heartbeat.
Implicit Types (g : gmap string (gmap Z counts)) (bins : gmap Z counts).
Implicit Types (events : list event) (ev : event) (prefix : string).

Lemma bump_add_to_bins prefix g ev :
  bump prefix g ev = <[prefix := add_to_bins (default ∅ (g !! prefix)) ev]> g.
Proof. done. Qed.

Lemma fold_bump_ne prefix prefix' events g :
  prefix ≠ prefix' → fold_left (bump prefix) events g !! prefix' = g !! prefix'.
Proof.
  intros Hne. revert g. induction events as [|ev events IH]; intros g; [done|].
  simpl. rewrite IH, bump_add_to_bins. by rewrite lookup_insert_ne.
Qed.

Lemma fold_bump_eq prefix events g :
  events ≠ [] →
  fold_left (bump prefix) events g !! prefix
  = Some (fold_left add_to_bins events (default ∅ (g !! prefix))).
Proof.
  revert g. induction events as [|ev events IH]; intros g Hne; [done|].
  simpl. destruct events as [|ev' events].
  - simpl. by rewrite bump_add_to_bins, lookup_insert_eq.
  - rewrite IH by done. by rewrite bump_add_to_bins, lookup_insert_eq.
Qed.

Lemma heartbeat_items_absent (items : list (string * list event)) g prefix :
  prefix ∉ items.*1 →
  fold_left (fun g '(k, evs) => fold_left (bump k) evs g) items g !! prefix
  = g !! prefix.
Proof.
  revert g. induction items as [|[k evs] items IH]; intros g Hnot; [done|].
  simpl in *. apply not_elem_of_cons in Hnot as [Hk Hnot].
  rewrite IH by done. by apply fold_bump_ne.
Qed.

Lemma heartbeat_items_present (items : list (string * list event)) g
    prefix events :
  NoDup items.*1 → (prefix, events) ∈ items → events ≠ [] →
  fold_left (fun g '(k, evs) => fold_left (bump k) evs g) items g !! prefix
  = Some (fold_left add_to_bins events (default ∅ (g !! prefix))).
Proof.
  revert g. induction items as [|[k evs] items IH]; intros g Hnd Hin Hne.
  - by apply elem_of_nil in Hin.
  - simpl in *. apply NoDup_cons in Hnd as [Hk Hnd].
    apply elem_of_cons in Hin as [Heq|Hin].
    + injection Heq as <- <-.
      rewrite heartbeat_items_absent by done. by apply fold_bump_eq.
    + assert (k ≠ prefix) as Hkp.
      { intros ->. apply Hk. apply list_elem_of_fmap. by exists (prefix, events). }
      rewrite IH by done. by rewrite fold_bump_ne.
Qed.

Lemma heartbeat_lookup (filtered_data : gmap string (list event)) prefix events :
  filtered_data !! prefix = Some events → events ≠ [] →
  render_heartbeat_chart filtered_data !! prefix
  = Some (fold_left add_to_bins events ∅).
Proof.
  intros Hl Hne. unfold render_heartbeat_chart.
  rewrite (heartbeat_items_present _ _ prefix events); try done.
  - apply NoDup_fst_map_to_list.
  - by apply elem_of_map_to_list.
Qed.

Lemma add_to_bins_lookup bins ev b :
  default (Counts 0 0) (add_to_bins bins ev !! b)
  = let c := default (Counts 0 0) (bins !! b) in
    Counts (pass_count c + (if in_bucket b true ev then 1 else 0))
           (fail_count c + (if in_bucket b false ev then 1 else 0)).
Proof.
  unfold add_to_bins, in_bucket.
  destruct (Z.eqb_spec (binned_ts (ts ev)) b) as [->|Hne].
  - rewrite lookup_insert_eq. simpl.
    destruct (is_pass ev); simpl; f_equal; lia.
  - rewrite lookup_insert_ne by done. simpl.
    destruct (default _ _). simpl. f_equal; lia.
Qed.

Lemma fold_add_to_bins_counts events bins b :
  default (Counts 0 0) (fold_left add_to_bins events bins !! b)
  = let c := default (Counts 0 0) (bins !! b) in
    Counts (pass_count c + bucket_count b true events)
           (fail_count c + bucket_count b false events).
Proof.
  revert bins. induction events as [|ev events IH]; intros bins.
  - unfold bucket_count. simpl. destruct (default _ _). simpl. f_equal; lia.
  - simpl fold_left. rewrite IH, add_to_bins_lookup. unfold bucket_count.
    simpl. destruct (in_bucket b true ev), (in_bucket b false ev);
      simpl; f_equal; lia.
Qed.

Lemma binned_ts_plus_30 (t : Z) :
  (t `mod` 60 < 30)%Z → binned_ts (t + 30) = binned_ts t.
Proof.
  intros Hlt. unfold binned_ts, time_bin. f_equal.
  symmetry. apply (Z.div_unique (t + 30) 60 (t / 60) (t `mod` 60 + 30)).
  - pose proof (Z.mod_pos_bound t 60). lia.
  - pose proof (Z.div_mod t 60). lia.
Qed.

End Heartbeat.

(** C3 (as stated) fails: Fail records at 45 s and 75 s are 30 seconds
    apart but truncate to the boundaries 0 and 60, so the heartbeat table
    holds two buckets with fail count 1 each. *)
Lemma thirty_seconds_apart_across_a_boundary :
  let e1 := Event 45 false "/data/unitA_001.txt" "Job.Fail:1" in
  let e2 := Event 75 false "/data/unitA_002.txt" "Job.Fail:1" in
  ts e2 = (ts e1 + 30)%Z
  ∧ binned_ts (ts e1) = 0%Z
  ∧ binned_ts (ts e2) = 60%Z
  ∧ render_heartbeat_chart {[ "unitA" := [e1; e2] ]}
    = {[ "unitA" := {[ 0%Z := Counts 0 1; 60%Z := Counts 0 1 ]} ]}.
Proof. vm_compute. done. Qed.

(** C3 (amended): two Fail records of one identity whose timestamps lie 30
    seconds apart, the earlier one less than 30 seconds past a 60-second
    boundary, truncate to the same boundary; when they are the Fail records
    of that identity in that bucket, the bucket's fail count is 2. *)
Theorem same_bucket_fail_count
    (filtered_data : gmap string (list event)) prefix events e1 e2 :
  filtered_data !! prefix = Some events →
  is_pass e1 = false → is_pass e2 = false →
  ts e2 = (ts e1 + 30)%Z →
  (ts e1 `mod` 60 < 30)%Z →
  List.filter (in_bucket (binned_ts (ts e1)) false) events ≡ₚ [e1; e2] →
  binned_ts (ts e2) = binned_ts (ts e1)
  ∧ ∃ bins c,
      render_heartbeat_chart filtered_data !! prefix = Some bins
      ∧ bins !! binned_ts (ts e1) = Some c
      ∧ fail_count c = 2.
Proof.
  intros Hl Hf1 Hf2 Hts Hmod Hperm.
  split; [rewrite Hts; by apply binned_ts_plus_30|].
  assert (events ≠ []) as Hne.
  { intros ->. simpl in Hperm. by apply Permutation_nil_cons in Hperm. }
  exists (fold_left add_to_bins events ∅).
  pose proof (fold_add_to_bins_counts events ∅ (binned_ts (ts e1))) as Hc.
  rewrite lookup_empty in Hc. simpl in Hc.
  assert (bucket_count (binned_ts (ts e1)) false events = 2) as H2.
  { unfold bucket_count. by rewrite Hperm. }
  rewrite H2 in Hc.
  destruct (fold_left add_to_bins events ∅ !! binned_ts (ts e1)) as [c|].
  - exists c. split; [by apply heartbeat_lookup|]. split; [done|].
    simpl in Hc. by rewrite Hc.
  - done.
Qed.

Lemma same_bucket_fail_count_witness :
  ∃ bins c,
    render_heartbeat_chart
      {[ "unitA" := [Event 60 false "/data/unitA_001.txt" "Job.Fail:1";
                     Event 90 false "/data/unitA_002.txt" "Job.Fail:1";
                     Event 100 true "/data/unitA_003.txt" "Job.Pass:1";
                     Event 125 false "/data/unitA_004.txt" "Job.Fail:1"] ]}
      !! "unitA" = Some bins
    ∧ bins !! 60%Z = Some c
    ∧ fail_count c = 2.
Proof.
  refine (proj2 (same_bucket_fail_count _ "unitA" _
            (Event 60 false "/data/unitA_001.txt" "Job.Fail:1")
            (Event 90 false "/data/unitA_002.txt" "Job.Fail:1")
            _ _ _ _ _ _)); vm_compute; reflexivity.
Defined.

(* ===================================================================== *)
(** * Paging                                                              *)
(* ===================================================================== *)

Section Paging.
Import FolderViewer.
Implicit Types (v : FolderViewer.t).

Lemma last_index_page_count (n s : nat) :
  0 < n → 0 < s → (n - 1) / s = (n + s - 1) / s - 1.
Proof.
  intros Hn Hs.
  replace (n + s - 1) with ((n - 1) + 1 * s) by lia.
  rewrite Nat.div_add by lia. lia.
Qed.

Lemma last_index_start (n s : nat) : 0 < n → 0 < s → (n - 1) / s * s < n.
Proof.
  intros Hn Hs. pose proof (Nat.Div0.mul_div_le (n - 1) s). lia.
Qed.

Lemma last_index_stop (n s : nat) :
  0 < n → 0 < s → (n ≤ ((n - 1) / s + 1) * s)%nat.
Proof.
  intros Hn Hs. pose proof (Nat.mul_succ_div_gt (n - 1) s). lia.
Qed.

Lemma slice_length {A} (start stop : nat) (l : list A) :
  length (slice start stop l) = (stop - start) `min` (length l - start).
Proof. unfold slice. by rewrite length_take, length_drop. Qed.

Lemma last_page_unfold v :
  all_rows v ≠ [] →
  last_page v
  = refresh_page
      (set_current_page ((length (all_rows v) - 1) / page_size v) v).
Proof. unfold last_page. by destruct (all_rows v). Qed.

Lemma next_page_current v :
  0 < page_size v → current_page v < page_count v →
  current_page (next_page v)
  = (current_page v + 1) `min` (page_count v - 1).
Proof.
  intros Hs Hc. unfold page_count in *.
  assert (0 < length (all_rows v)) as Hn.
  { destruct (length (all_rows v)); [|lia].
    rewrite Nat.div_small in Hc; lia. }
  rewrite <- last_index_page_count in * by done.
  assert (current_page v ≤ (length (all_rows v) - 1) / page_size v)%nat as Hle.
  { rewrite last_index_page_count by done. lia. }
  unfold next_page.
  destruct (Nat.ltb_spec ((current_page v + 1) * page_size v)
                         (length (all_rows v))) as [Hlt|Hge]; simpl.
  - assert (current_page v + 1 ≤ (length (all_rows v) - 1) / page_size v)%nat.
    { apply Nat.div_le_lower_bound; lia. }
    lia.
  - assert ((length (all_rows v) - 1) / page_size v < current_page v + 1).
    { apply Nat.Div0.div_lt_upper_bound; lia. }
    lia.
Qed.

Lemma prev_page_current v :
  current_page (prev_page v) = current_page v - 1.
Proof.
  unfold prev_page.
  destruct (Nat.ltb_spec 0 (current_page v)); simpl; lia.
Qed.

End Paging.

(** C9: for a non-empty row list and a positive page size, [last_page]
    lands on page [page_count - 1] and displays a non-empty page;
    [next_page] on the last page and [prev_page] on the first page leave
    the viewer where it is, and from any valid page they move by one page
    clamped to the valid range; [first_page] after [last_page] displays
    again what the viewer displayed when it was opened. *)
Theorem paging_saturates (v : FolderViewer.t) :
  FolderViewer.all_rows v ≠ [] →
  0 < FolderViewer.page_size v →
  let last := FolderViewer.last_page v in
  FolderViewer.current_page last = FolderViewer.page_count v - 1
  ∧ FolderViewer.table last ≠ []
  ∧ FolderViewer.next_page last = last
  ∧ FolderViewer.prev_page (FolderViewer.first_page v)
    = FolderViewer.first_page v
  ∧ FolderViewer.first_page last
    = FolderViewer.opened (FolderViewer.all_rows v) (FolderViewer.page_size v)
  ∧ (FolderViewer.current_page v < FolderViewer.page_count v →
     FolderViewer.current_page (FolderViewer.next_page v)
     = (FolderViewer.current_page v + 1)
         `min` (FolderViewer.page_count v - 1)
     ∧ FolderViewer.current_page (FolderViewer.prev_page v)
       = FolderViewer.current_page v - 1).
Proof.
  intros Hrows Hs last. subst last.
  assert (0 < length (FolderViewer.all_rows v)) as Hn.
  { destruct (FolderViewer.all_rows v); [done|simpl; lia]. }
  rewrite last_page_unfold by done.
  pose proof (last_index_start _ _ Hn Hs) as Hstart.
  pose proof (last_index_stop _ _ Hn Hs) as Hstop.
  split; [|split; [|split; [|split; [|split]]]].
  - simpl. unfold FolderViewer.page_count. by apply last_index_page_count.
  - simpl. intros Hnil. apply (f_equal length) in Hnil.
    rewrite slice_length in Hnil. simpl in Hnil. lia.
  - unfold FolderViewer.next_page. simpl.
    by destruct (Nat.ltb_spec
      (((length (FolderViewer.all_rows v) - 1) / FolderViewer.page_size v + 1)
         * FolderViewer.page_size v)
      (length (FolderViewer.all_rows v))); [lia|].
  - done.
  - done.
  - intros Hc. split; [by apply next_page_current|apply prev_page_current].
Qed.

Lemma paging_saturates_witness :
  let rows := [FolderViewer.Row "2024-01-01 10:00:00" "unitA_001" "x" "" "a1";
               FolderViewer.Row "2024-01-01 10:01:00" "unitA_002" "x" "" "a2";
               FolderViewer.Row "2024-01-01 10:02:00" "unitA_003" "x" "" "a3"] in
  let v := FolderViewer.opened rows 2 in
  FolderViewer.current_page (FolderViewer.last_page v) = 1
  ∧ FolderViewer.table (FolderViewer.last_page v) ≠ [].
Proof.
  intros rows v.
  pose proof (paging_saturates v) as H.
  destruct H as (H1 & H2 & _); [vm_compute; discriminate|vm_compute; lia|].
  split; [exact H1|exact H2].
Defined.

(* ===================================================================== *)
(** * Filtering in the object store                                       *)
(* ===================================================================== *)

Section FilterStore.
Context (spec : filter_spec).
Implicit Types (h hc : store) (md : gmap string loc) (outs : list obj).
Implicit Types (w v : gmap string (list event)) (evs acc : list event).

Lemma apply_filters_unfold data :
  apply_filters spec data
  = (filtered ← alloc (ODict ∅);
     items ← dict_items data;
     for_each items (filter_group spec filtered) ;;
     mret filtered).
Proof. done. Qed.

Lemma read_list_Some h l evs :
  read_list h l = Some evs ↔ h !! l = Some (OList evs).
Proof.
  unfold read_list. destruct (h !! l) as [[es|d]|]; naive_solver.
Qed.

Lemma filter_loop out evs acc hc :
  hc !! out = Some (OList acc) →
  for_each evs (fun ev =>
    if skipped spec ev then mret tt else list_append out ev) hc
  = Some (tt, <[out := OList (acc ++ List.filter (keep spec) evs)]> hc).
Proof.
  revert acc hc. induction evs as [|ev evs IH]; intros acc hc Hout.
  - cbn [for_each List.filter]. rewrite app_nil_r, list_insert_id by done.
    done.
  - cbn [for_each List.filter]. unfold mbind, St_bind, keep.
    destruct (skipped spec ev) eqn:Hsk; cbn [negb].
    + unfold mret, St_ret. by apply IH.
    + unfold list_append at 1. rewrite Hout.
      rewrite (IH (acc ++ [ev])).
      * by rewrite list_insert_insert_eq, <- app_assoc.
      * apply list_lookup_insert_eq. by eapply lookup_lt_Some.
Qed.

Lemma filter_group_run filtered prefix events evs md hc :
  hc !! events = Some (OList evs) →
  hc !! filtered = Some (ODict md) →
  filter_group spec filtered (prefix, events) hc
  = Some (tt, <[filtered := ODict (<[prefix := length hc]> md)]>
                (hc ++ [OList (List.filter (keep spec) evs)])).
Proof.
  intros Hev Hd. unfold filter_group, mbind, St_bind, alloc, list_items.
  rewrite (lookup_app_l_Some _ _ _ _ Hev).
  rewrite (filter_loop (length hc) evs [] (hc ++ [OList []]))
    by (by apply list_lookup_middle).
  cbn [app]. rewrite insert_app_r_alt, Nat.sub_diag by done. simpl.
  unfold dict_setitem. by rewrite (lookup_app_l_Some _ _ _ _ Hd).
Qed.

Lemma lookup_out h o outs j :
  (h ++ o :: outs) !! (S (length h) + j) = outs !! j.
Proof.
  rewrite lookup_app_r by lia.
  by replace (S (length h) + j - length h) with (S j) by lia.
Qed.

Lemma represents_step h md outs w k fl :
  represents (S (length h)) md outs w →
  represents (S (length h))
    (<[k := length (h ++ ODict md :: outs)]> md)
    (outs ++ [OList fl])
    (<[k := fl]> w).
Proof.
  intros Hrep k'. destruct (decide (k = k')) as [<-|Hne].
  - rewrite !lookup_insert_eq. exists (length outs), fl.
    split; [rewrite length_app; simpl; lia|].
    split; [by apply list_lookup_middle|done].
  - rewrite !lookup_insert_ne by done. specialize (Hrep k').
    destruct (md !! k') as [l|]; [|done].
    destruct Hrep as (j & es & -> & Hj & Hw). exists j, es.
    split; [done|]. split; [by apply lookup_app_l_Some|done].
Qed.

Lemma filter_groups_run h items md outs w :
  (∀ k l, (k, l) ∈ items → is_Some (read_list h l)) →
  represents (S (length h)) md outs w →
  ∃ md' outs',
    for_each items (filter_group spec (length h)) (h ++ ODict md :: outs)
    = Some (tt, h ++ ODict md' :: outs')
    ∧ represents (S (length h)) md' outs' (filtered_items spec h items w).
Proof.
  revert md outs w.
  induction items as [|[k l] items IH]; intros md outs w Hlists Hrep.
  - exists md, outs. done.
  - destruct (Hlists k l) as [evs Hevs]; [by left|].
    pose proof Hevs as Hl. apply read_list_Some in Hl.
    cbn [for_each]. unfold mbind at 1. unfold St_bind at 1.
    rewrite (filter_group_run _ _ _ evs md).
    + rewrite <- app_assoc. simpl.
      rewrite insert_app_r_alt, Nat.sub_diag by done. simpl.
      destruct (IH (<[k := length (h ++ ODict md :: outs)]> md)
                   (outs ++ [OList (List.filter (keep spec) evs)])
                   (<[k := List.filter (keep spec) evs]> w))
        as (md' & outs' & Hrun & Hrep').
      * intros k' l' Hin. apply (Hlists k' l'). by right.
      * by apply represents_step.
      * exists md', outs'. split; [done|].
        simpl. by rewrite Hevs.
    + by apply lookup_app_l_Some.
    + by apply list_lookup_middle.
Qed.

Lemma filtered_items_absent h items w k :
  k ∉ items.*1 → filtered_items spec h items w !! k = w !! k.
Proof.
  revert w. induction items as [|[k' l] items IH]; intros w Hnot; [done|].
  simpl in *. apply not_elem_of_cons in Hnot as [Hk Hnot].
  unfold filtered_items in *. rewrite IH by done.
  by rewrite lookup_insert_ne.
Qed.

Lemma filtered_items_present h items w k l :
  NoDup items.*1 → (k, l) ∈ items →
  filtered_items spec h items w !! k
  = Some (List.filter (keep spec) (default [] (read_list h l))).
Proof.
  revert w. induction items as [|[k' l'] items IH]; intros w Hnd Hin.
  - by apply elem_of_nil in Hin.
  - simpl in *. apply NoDup_cons in Hnd as [Hk Hnd].
    apply elem_of_cons in Hin as [Heq|Hin].
    + injection Heq as <- <-.
      pose proof (filtered_items_absent h items) as Habs.
      unfold filtered_items in *. rewrite Habs by done.
      by rewrite lookup_insert_eq.
    + unfold filtered_items in *. by apply IH.
Qed.

Lemma filtered_items_view h (m : gmap string loc) :
  map_Forall (fun _ l => is_Some (read_list h l)) m →
  filtered_items spec h (map_to_list m) ∅
  = filter_view spec (omap (read_list h) m).
Proof.
  intros Hall. apply map_eq. intros k.
  unfold filter_view. rewrite lookup_fmap, lookup_omap.
  destruct (m !! k) as [l|] eqn:Hk; simpl.
  - rewrite (filtered_items_present _ _ _ k l).
    + destruct (Hall k l Hk) as [evs ->]. done.
    + apply NoDup_fst_map_to_list.
    + by apply elem_of_map_to_list.
  - rewrite filtered_items_absent; [done|].
    intros Hin. apply list_elem_of_fmap in Hin as ([k' l] & -> & Hin).
    apply elem_of_map_to_list in Hin. simpl in Hk. congruence.
Qed.

Lemma read_dict_represents h md outs w :
  represents (S (length h)) md outs w →
  read_dict (h ++ ODict md :: outs) (length h) = Some w.
Proof.
  intros Hrep. unfold read_dict. rewrite list_lookup_middle by done.
  assert (∀ k l, md !! k = Some l →
            read_list (h ++ ODict md :: outs) l = w !! k
            ∧ is_Some (w !! k)) as Hread.
  { intros k l Hk. specialize (Hrep k). rewrite Hk in Hrep.
    destruct Hrep as (j & es & -> & Hj & Hw).
    rewrite Hw. split; [|by eexists].
    apply read_list_Some. by rewrite lookup_out. }
  rewrite decide_True.
  - f_equal. apply map_eq. intros k. rewrite lookup_omap.
    destruct (md !! k) as [l|] eqn:Hk; simpl.
    + by apply Hread.
    + specialize (Hrep k). by rewrite Hk in Hrep.
  - intros k l Hk. destruct (Hread k l Hk) as [-> Hsome]. done.
Qed.

Lemma read_dict_inv h data v :
  read_dict h data = Some v →
  ∃ m, h !! data = Some (ODict m)
       ∧ map_Forall (fun _ l => is_Some (read_list h l)) m
       ∧ v = omap (read_list h) m.
Proof.
  unfold read_dict. destruct (h !! data) as [[es|m]|]; try done.
  case_decide; [|done]. intros [= <-]. by exists m.
Qed.

(** Running [apply_filters]: it succeeds, only appends to the store, and
    the dict it returns denotes the filtered view of its argument. *)
Lemma apply_filters_run h data v :
  read_dict h data = Some v →
  ∃ tail,
    apply_filters spec data h = Some (length h, h ++ tail)
    ∧ read_dict (h ++ tail) (length h) = Some (filter_view spec v).
Proof.
  intros Hread. apply read_dict_inv in Hread as (m & Hd & Hall & ->).
  destruct (filter_groups_run h (map_to_list m) ∅ [] ∅)
    as (md' & outs' & Hrun & Hrep).
  - intros k l Hin. apply elem_of_map_to_list in Hin. by apply (Hall k l).
  - intros k. by rewrite !lookup_empty.
  - exists (ODict md' :: outs').
    rewrite apply_filters_unfold.
    unfold mbind, St_bind, alloc, dict_items.
    rewrite (lookup_app_l_Some _ _ _ _ Hd).
    split.
    + unfold mbind, St_bind in Hrun |- *. by rewrite Hrun.
    + rewrite <- (filtered_items_view h m Hall).
      by apply read_dict_represents.
Qed.

Lemma read_dict_app h tail data v :
  read_dict h data = Some v → read_dict (h ++ tail) data = Some v.
Proof.
  intros Hread. apply read_dict_inv in Hread as (m & Hd & Hall & ->).
  unfold read_dict. rewrite (lookup_app_l_Some _ _ _ _ Hd).
  assert (∀ k l, m !! k = Some l →
                 read_list (h ++ tail) l = read_list h l) as Hsame.
  { intros k l Hk. destruct (Hall k l Hk) as [evs Hevs]. rewrite Hevs.
    apply read_list_Some. apply lookup_app_l_Some. by apply read_list_Some. }
  rewrite decide_True.
  - f_equal. apply map_eq. intros k. rewrite !lookup_omap.
    destruct (m !! k) as [l|] eqn:Hk; simpl; [|done]. by eapply Hsame.
  - intros k l Hk. rewrite (Hsame k l Hk). by apply (Hall k l).
Qed.

Lemma filter_view_idemp v :
  filter_view spec (filter_view spec v) = filter_view spec v.
Proof.
  unfold filter_view. rewrite <- map_fmap_compose.
  apply map_fmap_ext. intros k evs _. simpl.
  induction evs as [|ev evs IH]; [done|]. simpl.
  destruct (keep spec ev) eqn:Hk; simpl; [rewrite Hk|]; by rewrite IH.
Qed.

End FilterStore.

Lemma filter_all_skipped spec (events : list event) :
  Forall (fun ev => skipped spec ev = true) events →
  List.filter (keep spec) events = [].
Proof.
  induction 1 as [|ev events Hsk _ IH]; [done|].
  simpl. unfold keep at 1. by rewrite Hsk.
Qed.

(** C7: run on a dict that denotes [v], [apply_filters] returns a dict
    that denotes the filtered view of [v]; run again on its own result with
    the same settings it returns a dict that denotes the same view.  Both
    runs only allocate: every object the store held before is still there
    unchanged, so the input dict and its lists denote [v] afterwards. *)
Theorem apply_filters_idempotent_and_pure spec (h : store) data v :
  read_dict h data = Some v →
  ∃ f1 h1 f2 h2,
    apply_filters spec data h = Some (f1, h1)
    ∧ apply_filters spec f1 h1 = Some (f2, h2)
    ∧ read_dict h1 f1 = Some (filter_view spec v)
    ∧ read_dict h2 f2 = read_dict h1 f1
    ∧ (∀ l o, h !! l = Some o → h1 !! l = Some o ∧ h2 !! l = Some o)
    ∧ (∀ l o, h1 !! l = Some o → h2 !! l = Some o)
    ∧ read_dict h1 data = Some v
    ∧ read_dict h2 data = Some v.
Proof.
  intros Hread.
  destruct (apply_filters_run spec h data v Hread) as (t1 & Hrun1 & Hv1).
  destruct (apply_filters_run spec _ _ _ Hv1) as (t2 & Hrun2 & Hv2).
  exists (length h), (h ++ t1), (length (h ++ t1)), ((h ++ t1) ++ t2).
  split; [done|]. split; [done|]. split; [done|].
  split; [by rewrite Hv2, filter_view_idemp|].
  split.
  { intros l o Hl. split; [by apply lookup_app_l_Some|].
    by do 2 apply lookup_app_l_Some. }
  split; [intros l o Hl; by apply lookup_app_l_Some|].
  split; [by apply read_dict_app|by do 2 apply read_dict_app].
Qed.

Lemma apply_filters_idempotent_and_pure_witness :
  let e1 := Event 45 false "/data/unitA_001.txt" "Voltage:Low, Job.Fail:1" in
  let e2 := Event 75 true "/data/unitA_002.txt" "Job.Pass:1" in
  let e3 := Event 100 false "/data/unitB.txt" "" in
  let h := [OList [e1; e2]; OList [e3];
            ODict {[ "unitA" := 0; "unitB" := 1 ]}] in
  ∃ f1 h1 f2 h2,
    apply_filters (FilterSpec Pass None None) 2 h = Some (f1, h1)
    ∧ apply_filters (FilterSpec Pass None None) f1 h1 = Some (f2, h2)
    ∧ read_dict h1 f1 = Some {[ "unitA" := [e2]; "unitB" := [] ]}
    ∧ read_dict h2 f2 = read_dict h1 f1
    ∧ h1 !! 0 = Some (OList [e1; e2])
    ∧ read_dict h2 2 = Some {[ "unitA" := [e1; e2]; "unitB" := [e3] ]}.
Proof.
  intros e1 e2 e3 h.
  destruct (apply_filters_idempotent_and_pure (FilterSpec Pass None None) h 2
              {[ "unitA" := [e1; e2]; "unitB" := [e3] ]})
    as (f1 & h1 & f2 & h2 & H1 & H2 & H3 & H4 & H5 & H6 & H7 & H8);
    [vm_compute; reflexivity|].
  exists f1, h1, f2, h2.
  split; [exact H1|]. split; [exact H2|].
  split; [rewrite H3; vm_compute; reflexivity|].
  split; [exact H4|].
  split; [apply (H5 0); reflexivity|exact H8].
Defined.

(** C8: the dict [apply_filters] returns has exactly the keys of its
    argument; an identity all of whose records are skipped by the date or
    outcome tests stays as a key mapped to the empty list. *)
Theorem apply_filters_keeps_every_identity spec (h : store) data v :
  read_dict h data = Some v →
  ∃ filtered h' v',
    apply_filters spec data h = Some (filtered, h')
    ∧ read_dict h' filtered = Some v'
    ∧ dom v' = dom v
    ∧ (∀ prefix events,
         v !! prefix = Some events →
         Forall (fun ev => skipped spec ev = true) events →
         v' !! prefix = Some []).
Proof.
  intros Hread.
  destruct (apply_filters_run spec h data v Hread) as (tail & Hrun & Hv).
  exists (length h), (h ++ tail), (filter_view spec v).
  split; [done|]. split; [done|].
  split; [apply dom_fmap_L|].
  intros prefix events Hl Hall. unfold filter_view.
  rewrite lookup_fmap, Hl. simpl. by rewrite filter_all_skipped.
Qed.

Lemma apply_filters_keeps_every_identity_witness :
  let e1 := Event 45 false "/data/unitA_001.txt" "Voltage:Low, Job.Fail:1" in
  let e2 := Event 75 true "/data/unitA_002.txt" "Job.Pass:1" in
  let e3 := Event 100 false "/data/unitB.txt" "" in
  let h := [OList [e1; e2]; OList [e3];
            ODict {[ "unitA" := 0; "unitB" := 1 ]}] in
  ∃ filtered h' v',
    apply_filters (FilterSpec Pass None None) 2 h = Some (filtered, h')
    ∧ read_dict h' filtered = Some v'
    ∧ dom v' = {[ "unitA"; "unitB" ]}
    ∧ v' !! "unitB" = Some [].
Proof.
  intros e1 e2 e3 h.
  destruct (apply_filters_keeps_every_identity (FilterSpec Pass None None) h 2
              {[ "unitA" := [e1; e2]; "unitB" := [e3] ]})
    as (filtered & h' & v' & H1 & H2 & H3 & H4); [vm_compute; reflexivity|].
  exists filtered, h', v'.
  split; [exact H1|]. split; [exact H2|].
  split; [rewrite H3; vm_compute; reflexivity|].
  apply (H4 "unitB" [e3]); [vm_compute; reflexivity|].
  repeat constructor.
Defined.

(* ===================================================================== *)
(** * Labels: trimmed, non-empty, comma-free; case does not matter        *)
(* ===================================================================== *)

Section LabelShape.
Implicit Types (s p lbl : string) (c sep : ascii).

Lemma lstrip_first s c : first_char (lstrip s) = Some c → is_space c = false.
Proof.
  induction s as [|a r IH]; simpl; [done|].
  destruct (is_space a) eqn:Ha; [done|]. simpl. by intros [= <-].
Qed.

Lemma rstrip_last s c : last_char (rstrip s) = Some c → is_space c = false.
Proof.
  induction s as [|a r IH]; simpl; [done|].
  destruct (rstrip r) as [|b r'] eqn:Hr.
  - destruct (is_space a) eqn:Ha; simpl; [done|]. by intros [= <-].
  - simpl in *. destruct r'; done.
Qed.

Lemma rstrip_first s c :
  first_char s = Some c → is_space c = false → first_char (rstrip s) = Some c.
Proof.
  destruct s as [|a r]; simpl; [done|]. intros [= ->] Hc.
  destruct (rstrip r); [by rewrite Hc|done].
Qed.

Lemma rstrip_idemp s : rstrip (rstrip s) = rstrip s.
Proof.
  induction s as [|a r IH]; simpl; [done|].
  destruct (rstrip r) as [|b r'] eqn:Hr.
  - destruct (is_space a) eqn:Ha; simpl; [done|]. by rewrite Ha.
  - simpl in *. by rewrite IH.
Qed.

Lemma lstrip_id s :
  (∀ c, first_char s = Some c → is_space c = false) → lstrip s = s.
Proof.
  destruct s as [|a r]; simpl; [done|]. intros H. by rewrite (H a).
Qed.

Lemma strip_idemp s : strip (strip s) = strip s.
Proof.
  unfold strip.
  rewrite (lstrip_id (rstrip (lstrip s))); [apply rstrip_idemp|].
  intros c Hc.
  destruct (lstrip s) as [|a r] eqn:Hl; [done|].
  assert (is_space a = false) as Ha by (apply (lstrip_first s); by rewrite Hl).
  rewrite (rstrip_first (String a r) a) in Hc by done. by injection Hc as <-.
Qed.

Lemma has_char_lstrip c s : has_char c (lstrip s) = true → has_char c s = true.
Proof.
  induction s as [|a r IH]; simpl; [done|].
  destruct (is_space a); [|done]. intros H. rewrite (IH H). apply orb_true_r.
Qed.

Lemma has_char_rstrip c s : has_char c (rstrip s) = true → has_char c s = true.
Proof.
  induction s as [|a r IH]; simpl; [done|].
  destruct (rstrip r) as [|b r'].
  - destruct (is_space a); simpl; [done|].
    rewrite orb_false_r. by intros ->.
  - intros H. apply orb_true_iff in H as [->|H]; [done|].
    rewrite (IH H). apply orb_true_r.
Qed.

Lemma has_char_strip c s : has_char c (strip s) = true → has_char c s = true.
Proof. intros H. by apply has_char_lstrip, has_char_rstrip. Qed.

Lemma split_free sep s p : p ∈ split sep s → has_char sep p = false.
Proof.
  revert p. induction s as [|a r IH]; intros p; cbn [split].
  - by intros ->%list_elem_of_singleton.
  - destruct (Ascii.eqb_spec a sep) as [->|Hne].
    + intros [->|Hin]%elem_of_cons; [done|by apply IH].
    + destruct (split sep r) as [|q qs] eqn:Hs.
      * intros ->%list_elem_of_singleton. simpl.
        destruct (Ascii.eqb_spec a sep); [done|done].
      * intros [->|Hin]%elem_of_cons.
        -- simpl. destruct (Ascii.eqb_spec a sep); [done|].
           simpl. apply IH. by left.
        -- apply IH. by right.
Qed.

Lemma labels_of_elem text lbl :
  lbl ∈ labels_of text
  ↔ ∃ p, p ∈ split "," text ∧ lbl = strip p ∧ strip p ≠ "".
Proof.
  unfold labels_of. rewrite list_elem_of_In, in_map_iff. split.
  - intros (p & <- & Hin). apply filter_In in Hin as [Hin Ht].
    exists p. split; [by apply list_elem_of_In|]. split; [done|].
    by destruct (strip p).
  - intros (p & Hin & -> & Hne). exists p. split; [done|].
    apply filter_In. split; [by apply list_elem_of_In|].
    by destruct (strip p).
Qed.

End LabelShape.

(** X1: every label of a status text is non-empty, contains no comma,
    neither starts nor ends with a white-space character, and is left
    unchanged by a further [strip]. *)
Theorem labels_are_trimmed_tokens text lbl :
  lbl ∈ labels_of text →
  lbl ≠ ""
  ∧ has_char "," lbl = false
  ∧ strip lbl = lbl
  ∧ (∀ c, first_char lbl = Some c → is_space c = false)
  ∧ (∀ c, last_char lbl = Some c → is_space c = false).
Proof.
  intros (p & Hin & -> & Hne)%labels_of_elem.
  split; [done|]. split.
  { destruct (has_char "," (strip p)) eqn:Hc; [|done].
    apply has_char_strip in Hc. by rewrite (split_free _ _ _ Hin) in Hc. }
  split; [apply strip_idemp|]. split.
  - intros c Hc. rewrite <- strip_idemp in Hc. unfold strip at 1 in Hc.
    destruct (lstrip (strip p)) as [|a r] eqn:Hl; [done|].
    assert (is_space a = false) as Ha
      by (apply (lstrip_first (strip p)); by rewrite Hl).
    rewrite (rstrip_first (String a r) a) in Hc by done. by injection Hc as <-.
  - intros c Hc. unfold strip in Hc. by apply rstrip_last in Hc.
Qed.

Lemma labels_are_trimmed_tokens_witness :
  strip "Voltage:Low" = "Voltage:Low".
Proof.
  apply (labels_are_trimmed_tokens " Voltage:Low ,, Job.Fail:1" "Voltage:Low").
  vm_compute. apply list_elem_of_here.
Defined.

Section CaseChange.
(** A per-character case conversion: it fixes commas, spaces and the
    white-space class, and does not change what [upper] makes of a
    character. *)
Variable f : ascii → ascii.
Hypothesis f_space : ∀ c, is_space (f c) = is_space c.
Hypothesis f_comma : ∀ c, Ascii.eqb (f c) "," = Ascii.eqb c ",".
Hypothesis f_blank : ∀ c, Ascii.eqb (f c) " " = Ascii.eqb c " ".
Hypothesis f_upper : ∀ c, upper_char (f c) = upper_char c.

Lemma lstrip_map_chars s : lstrip (map_chars f s) = map_chars f (lstrip s).
Proof.
  induction s as [|a r IH]; simpl; [done|].
  rewrite f_space. by destruct (is_space a).
Qed.

Lemma rstrip_map_chars s : rstrip (map_chars f s) = map_chars f (rstrip s).
Proof.
  induction s as [|a r IH]; simpl; [done|].
  rewrite IH, f_space. destruct (rstrip r); simpl; [|done].
  by destruct (is_space a).
Qed.

Lemma strip_map_chars s : strip (map_chars f s) = map_chars f (strip s).
Proof. unfold strip. by rewrite lstrip_map_chars, rstrip_map_chars. Qed.

Lemma split_map_chars s :
  split "," (map_chars f s) = List.map (map_chars f) (split "," s).
Proof.
  induction s as [|a r IH]; cbn [split map_chars]; [done|].
  rewrite f_comma, IH. destruct (Ascii.eqb a ","); [done|].
  by destruct (split "," r).
Qed.

Lemma truthy_map_chars s : truthy (map_chars f s) = truthy s.
Proof. by destruct s. Qed.

Lemma labels_of_map_chars text :
  labels_of (map_chars f text) = List.map (map_chars f) (labels_of text).
Proof.
  unfold labels_of. rewrite split_map_chars.
  induction (split "," text) as [|p ps IH]; [done|]. simpl.
  rewrite strip_map_chars, truthy_map_chars.
  destruct (truthy (strip p)); simpl; [|done].
  by rewrite strip_map_chars, IH.
Qed.

Lemma normalize_map_chars lbl : normalize (map_chars f lbl) = normalize lbl.
Proof.
  unfold normalize, upper.
  induction lbl as [|a r IH]; simpl; [done|].
  rewrite f_blank. destruct (Ascii.eqb a " "); [done|].
  simpl. by rewrite f_upper, IH.
Qed.

Lemma txt_is_pass_map_chars text :
  txt_is_pass (map_chars f text) = txt_is_pass text.
Proof.
  rewrite !txt_is_pass_existsb, labels_of_map_chars.
  induction (labels_of text) as [|lbl lbls IH]; [done|]. simpl.
  by rewrite normalize_map_chars, IH.
Qed.

Lemma cause_labels_map_chars text :
  cause_labels (map_chars f text) = List.map (map_chars f) (cause_labels text).
Proof.
  unfold cause_labels. rewrite labels_of_map_chars.
  induction (labels_of text) as [|lbl lbls IH]; [done|]. simpl.
  unfold is_job_label, is_ok_label in *. rewrite normalize_map_chars.
  destruct (negb _ && negb _); simpl; by rewrite IH.
Qed.

End CaseChange.

Lemma upper_char_facts c :
  is_space (upper_char c) = is_space c
  ∧ Ascii.eqb (upper_char c) "," = Ascii.eqb c ","
  ∧ Ascii.eqb (upper_char c) " " = Ascii.eqb c " "
  ∧ upper_char (upper_char c) = upper_char c.
Proof. destruct c as [[] [] [] [] [] [] [] []]; vm_compute; done. Qed.

Lemma lower_char_facts c :
  is_space (lower_char c) = is_space c
  ∧ Ascii.eqb (lower_char c) "," = Ascii.eqb c ","
  ∧ Ascii.eqb (lower_char c) " " = Ascii.eqb c " "
  ∧ upper_char (lower_char c) = upper_char c.
Proof. destruct c as [[] [] [] [] [] [] [] []]; vm_compute; done. Qed.


(* ===================================================================== *)
(** * What ingestion builds                                               *)
(* ===================================================================== *)

Section Grouping.
Context `{Countable K} {V : Type}.
Implicit Types (d : gmap K (list V)) (kvs : list (K * V)) (k : K).

Lemma values_for_app k kvs kvs' :
  values_for k (kvs ++ kvs') = values_for k kvs ++ values_for k kvs'.
Proof. unfold values_for. apply omap_app. Qed.

Lemma dd_append_fold_lookup kvs d k :
  fold_left (fun d kv => dd_append kv.1 kv.2 d) kvs d !! k
  = match values_for k kvs with
    | [] => d !! k
    | vs => Some (default [] (d !! k) ++ vs)
    end.
Proof.
  revert d. induction kvs as [|[k' v] kvs IH]; intros d; [done|].
  cbn [fold_left fst snd]. rewrite IH. unfold values_for, dd_append.
  cbn [omap list_omap fst snd]. fold (values_for k kvs).
  destruct (decide (k' = k)) as [->|Hne].
  - rewrite lookup_insert_eq. simpl.
    destruct (values_for k kvs); [done|]. by rewrite <- app_assoc.
  - by rewrite lookup_insert_ne.
Qed.

Lemma dd_append_fold_empty kvs k :
  fold_left (fun d kv => dd_append kv.1 kv.2 d) kvs (∅ : gmap K (list V)) !! k
  = nonempty (values_for k kvs).
Proof.
  rewrite dd_append_fold_lookup, lookup_empty.
  by destruct (values_for k kvs).
Qed.

End Grouping.

Section IngestionFold.
Implicit Types (st : ingest_state) (root : string).

Lemma record_causes_pairs p lbls (causes : gmap string (list string)) :
  record_causes p lbls causes
  = fold_left (fun d kv => dd_append kv.1 kv.2 d)
              ((fun lbl => (lbl, p)) <$> lbls) causes.
Proof.
  unfold record_causes. revert causes.
  induction lbls as [|lbl lbls IH]; intros causes; [done|]. simpl. apply IH.
Qed.

Lemma collect_cause_pairs root f (causes : gmap string (list string)) :
  fold_left
    (collect_cause (txt_is_pass (loaded (f_read f)))
                   (path_join root (f_name f)))
    (labels_of (loaded (f_read f))) causes
  = fold_left (fun d kv => dd_append kv.1 kv.2 d)
              (cause_pairs (event_of_file root f)) causes.
Proof.
  unfold cause_pairs, event_of_file. cbn [is_pass path content].
  destruct (txt_is_pass (loaded (f_read f))).
  - apply fold_collect_pass.
  - rewrite fold_collect_fail. apply record_causes_pairs.
Qed.

Lemma parse_files_fold root files st :
  foldM (parse_file root) st files
  = Ok (fold_left (fun d kv => dd_append kv.1 kv.2 d)
                  (walk_events [(root, files)]) st.1,
        fold_left (fun d kv => dd_append kv.1 kv.2 d)
                  ((walk_events [(root, files)]).*2 ≫= cause_pairs) st.2).
Proof.
  unfold walk_events. cbn [mbind list_bind]. rewrite app_nil_r.
  revert st. induction files as [|f files IH]; intros [data causes]; [done|].
  cbn [foldM List.filter].
  destruct (is_status_file f) eqn:Hf.
  - rewrite parse_file_status by done. cbn [mbind result_bind].
    rewrite IH. cbn [fst snd fmap list_fmap mbind list_bind].
    rewrite fold_left_app. by rewrite collect_cause_pairs.
  - rewrite parse_file_skip by done. cbn [mbind result_bind]. apply IH.
Qed.

Lemma walk_events_cons root files (w : walk) :
  walk_events ((root, files) :: w)
  = walk_events [(root, files)] ++ walk_events w.
Proof. unfold walk_events. cbn [mbind list_bind]. by rewrite app_nil_r. Qed.

Lemma parse_walk_fold (w : walk) st :
  foldM (fun st '(root, files) => foldM (parse_file root) st files) st w
  = Ok (fold_left (fun d kv => dd_append kv.1 kv.2 d) (walk_events w) st.1,
        fold_left (fun d kv => dd_append kv.1 kv.2 d)
                  ((walk_events w).*2 ≫= cause_pairs) st.2).
Proof.
  revert st. induction w as [|[root files] w IH]; intros st; [by destruct st|].
  cbn [foldM]. rewrite parse_files_fold. cbn [mbind result_bind].
  rewrite IH. cbn [fst snd].
  rewrite (walk_events_cons root files w), fmap_app, bind_app.
  by rewrite !fold_left_app.
Qed.

End IngestionFold.


(** X4: the failure cause index built by ingestion holds under a label, in
    visiting order, the path of every Fail status file once for each time
    the label occurs among that file's cause labels; a label that is no
    cause label of any Fail file has no entry.  Files classified Pass
    contribute nothing. *)
Theorem parse_folder_data_cause_index (w : walk) :
  ∃ data causes,
    parse_folder_data w = Ok (data, causes)
    ∧ ∀ lbl, causes !! lbl
             = nonempty (values_for lbl ((walk_events w).*2 ≫= cause_pairs)).
Proof.
  unfold parse_folder_data. rewrite parse_walk_fold. cbn [fst snd].
  eexists _, _. split; [done|].
  intros lbl. apply dd_append_fold_empty.
Qed.

Section CauseMaps.
Implicit Types (ev : event) (lbl p : string).

Lemma values_for_elem `{EqDecision K} {V} (k : K) (v : V) kvs :
  v ∈ values_for k kvs ↔ (k, v) ∈ kvs.
Proof.
  unfold values_for. rewrite list_elem_of_omap. split.
  - intros ([k' v'] & Hin & Hf). simpl in Hf.
    destruct (decide (k' = k)) as [->|]; [|done]. by injection Hf as ->.
  - intros Hin. exists (k, v). split; [done|]. simpl.
    by rewrite decide_True.
Qed.

Lemma cause_pairs_elem ev lbl p :
  (lbl, p) ∈ cause_pairs ev
  ↔ is_pass ev = false ∧ p = path ev ∧ lbl ∈ cause_labels (content ev).
Proof.
  unfold cause_pairs. destruct (is_pass ev).
  - rewrite elem_of_nil. split; [done|]. by intros [? _].
  - rewrite list_elem_of_fmap. split.
    + by intros (l & [= -> ->] & Hin).
    + intros (_ & -> & Hin). by exists lbl.
Qed.

Lemma cause_labels_elem content lbl :
  lbl ∈ cause_labels content
  ↔ lbl ∈ labels_of content ∧ is_job_label lbl = false
    ∧ is_ok_label lbl = false.
Proof.
  unfold cause_labels. rewrite list_elem_of_In, filter_In, <- list_elem_of_In.
  rewrite andb_true_iff, !negb_true_iff. split.
  - by intros (? & ? & ?).
  - by intros (? & ? & ?).
Qed.

Lemma walk_events_elem (w : walk) k ev :
  (k, ev) ∈ walk_events w
  ↔ ∃ root files f, (root, files) ∈ w ∧ f ∈ files ∧ is_status_file f = true
      ∧ k = prefix_of_file (f_name f) ∧ ev = event_of_file root f.
Proof.
  unfold walk_events. rewrite list_elem_of_bind. split.
  - intros ([root files] & Hin & Hw). apply list_elem_of_fmap in Hin.
    destruct Hin as (f & [= -> ->] & Hf).
    apply list_elem_of_In, filter_In in Hf as [Hf Hst].
    exists root, files, f. by rewrite list_elem_of_In.
  - intros (root & files & f & Hw & Hf & Hst & -> & ->).
    exists (root, files). split; [|done].
    apply list_elem_of_fmap. exists f. split; [done|].
    apply list_elem_of_In, filter_In. by rewrite <- list_elem_of_In.
Qed.

Lemma count_event_pairs (cc : gmap string (list string)) ev :
  count_event cc ev
  = fold_left (fun d kv => dd_append kv.1 kv.2 d) (cause_pairs ev) cc.
Proof.
  unfold cause_pairs. destruct (is_pass ev) eqn:Hp.
  - by apply count_event_pass.
  - rewrite count_event_fail by done. apply record_causes_pairs.
Qed.

Lemma count_events_pairs (cc : gmap string (list string)) (evs : list event) :
  fold_left count_event evs cc
  = fold_left (fun d kv => dd_append kv.1 kv.2 d) (evs ≫= cause_pairs) cc.
Proof.
  revert cc. induction evs as [|ev evs IH]; intros cc; [done|].
  cbn [fold_left mbind list_bind]. rewrite fold_left_app, IH.
  by rewrite count_event_pairs.
Qed.

Lemma chart_fold (items : list (string * list event))
    (cc : gmap string (list string)) :
  fold_left (fun cc '(prefix, events) => fold_left count_event events cc)
            items cc
  = fold_left (fun d kv => dd_append kv.1 kv.2 d)
              ((items ≫= snd) ≫= cause_pairs) cc.
Proof.
  revert cc. induction items as [|[k evs] items IH]; intros cc; [done|].
  cbn [fold_left mbind list_bind snd]. rewrite IH, count_events_pairs.
  by rewrite bind_app, fold_left_app.
Qed.

Lemma all_events_dd_append k ev (d : gmap string (list event)) :
  all_events (dd_append k ev d) ≡ₚ all_events d ++ [ev].
Proof.
  unfold all_events, dd_append.
  destruct (d !! k) as [l|] eqn:Hk; simpl.
  - rewrite <- (insert_delete_eq d k (l ++ [ev])).
    rewrite <- (insert_delete_id d k l) at 2 by done.
    rewrite !map_to_list_insert by apply lookup_delete_eq.
    simpl. rewrite <- !app_assoc. f_equiv. apply Permutation_app_comm.
  - rewrite map_to_list_insert by done. simpl.
    apply Permutation_cons_append.
Qed.

Lemma all_events_fold (kvs : list (string * event))
    (d : gmap string (list event)) :
  all_events (fold_left (fun d kv => dd_append kv.1 kv.2 d) kvs d)
  ≡ₚ all_events d ++ kvs.*2.
Proof.
  revert d. induction kvs as [|[k ev] kvs IH]; intros d.
  - by rewrite app_nil_r.
  - cbn [fold_left fmap list_fmap fst snd]. rewrite IH, all_events_dd_append.
    by rewrite <- app_assoc.
Qed.

Lemma parse_folder_data_eq (w : walk) :
  parse_folder_data w
  = Ok (fold_left (fun d kv => dd_append kv.1 kv.2 d) (walk_events w) ∅,
        fold_left (fun d kv => dd_append kv.1 kv.2 d)
                  ((walk_events w).*2 ≫= cause_pairs) ∅).
Proof. unfold parse_folder_data. by rewrite parse_walk_fold. Qed.

End CauseMaps.

(** X5: invariants of what ingestion returns.  The verdict stored in a
    record is the classification of its stored content, under the key the
    record's file name derives.  Every key of the failure cause index is a
    label of a Fail record's content that neither starts with [JOB.PASS] /
    [JOB.FAIL] nor ends in [:OK] / [=OK] once normalized, and every path
    listed under it is the path of such a Fail record present in the
    grouped data. *)
Theorem parse_folder_data_invariants (w : walk) data causes :
  parse_folder_data w = Ok (data, causes) →
  (∀ k evs ev, data !! k = Some evs → ev ∈ evs →
     is_pass ev = txt_is_pass (content ev)
     ∧ ∃ root files f, (root, files) ∈ w ∧ f ∈ files
         ∧ is_status_file f = true ∧ k = prefix_of_file (f_name f)
         ∧ path ev = path_join root (f_name f))
  ∧ (∀ lbl paths p, causes !! lbl = Some paths → p ∈ paths →
       is_job_label lbl = false ∧ is_ok_label lbl = false
       ∧ ∃ k evs ev, data !! k = Some evs ∧ ev ∈ evs
           ∧ is_pass ev = false ∧ path ev = p
           ∧ lbl ∈ labels_of (content ev)).
Proof.
  rewrite parse_folder_data_eq. intros [= <- <-].
  pose proof (dd_append_fold_empty (walk_events w)) as Hd.
  pose proof (dd_append_fold_empty ((walk_events w).*2 ≫= cause_pairs)) as Hc.
  set (data := fold_left _ (walk_events w) ∅) in *.
  set (causes := fold_left _ (_ ≫= cause_pairs) ∅) in *.
  assert (∀ k ev, (k, ev) ∈ walk_events w →
            ∃ evs, data !! k = Some evs ∧ ev ∈ evs) as Hstored.
  { intros k ev Hin. apply values_for_elem in Hin.
    rewrite Hd. destruct (values_for k (walk_events w)) as [|e es] eqn:Hv.
    - by apply elem_of_nil in Hin.
    - by exists (e :: es). }
  split.
  - intros k evs ev Hk Hin. rewrite Hd in Hk.
    assert (ev ∈ values_for k (walk_events w)) as Hv.
    { destruct (values_for k (walk_events w)); [done|].
      by injection Hk as <-. }
    apply values_for_elem, walk_events_elem in Hv.
    destruct Hv as (root & files & f & Hw & Hf & Hst & -> & ->).
    split; [done|]. by exists root, files, f.
  - intros lbl paths p Hl Hp. rewrite Hc in Hl.
    assert (p ∈ values_for lbl ((walk_events w).*2 ≫= cause_pairs)) as Hv.
    { destruct (values_for lbl _); [done|]. by injection Hl as <-. }
    apply values_for_elem, list_elem_of_bind in Hv as (ev & Hpair & Hev).
    apply cause_pairs_elem in Hpair as (Hfail & -> & Hlbl).
    apply cause_labels_elem in Hlbl as (Hlab & Hj & Hok).
    apply list_elem_of_fmap in Hev as ([k ev'] & -> & Hin).
    destruct (Hstored k ev' Hin) as (evs & Hk & Hin').
    split; [done|]. split; [done|]. by exists k, evs, ev'.
Qed.

Lemma parse_folder_data_invariants_witness :
  let e := Event 45 false "/data/unitA_001.txt" "Voltage:Low, Job.Fail:1" in
  is_pass e = txt_is_pass (content e)
  ∧ ∃ root files f,
      (root, files)
        ∈ [("/data", [FileEntry "unitA_001.txt" 45
                                (Ok "Voltage:Low, Job.Fail:1")])]
      ∧ f ∈ files ∧ is_status_file f = true
      ∧ "unitA" = prefix_of_file (f_name f)
      ∧ path e = path_join root (f_name f).
Proof.
  intros e.
  refine (proj1 (parse_folder_data_invariants
            [("/data", [FileEntry "unitA_001.txt" 45
                                  (Ok "Voltage:Low, Job.Fail:1")])]
            {[ "unitA" := [e] ]}
            {[ "Voltage:Low" := ["/data/unitA_001.txt"] ]} _)
          "unitA" [e] e _ _).
  - vm_compute. reflexivity.
  - vm_compute. reflexivity.
  - apply list_elem_of_here.
Defined.

(** X6: the cause counts of the failure-cause chart hold under a label
    the path of every Fail record of the filtered data, once for each time
    the label occurs among the record's cause labels, in the order the
    records are met; a label that is no cause label of a Fail record has
    no bar. *)
Theorem failure_causes_chart_counts (filtered_data : gmap string (list event))
    lbl :
  render_failure_causes_chart filtered_data !! lbl
  = nonempty (values_for lbl (all_events filtered_data ≫= cause_pairs)).
Proof.
  unfold render_failure_causes_chart. rewrite chart_fold.
  apply dd_append_fold_empty.
Qed.

(** X7: on the unfiltered result of ingestion the chart and the
    ingestion-time index agree: they have the same labels, and under each
    label the same paths with the same multiplicities (the order may
    differ, the chart goes group by group and ingestion file by file). *)
Theorem chart_agrees_with_cause_index (w : walk) data causes lbl :
  parse_folder_data w = Ok (data, causes) →
  (is_Some (render_failure_causes_chart data !! lbl)
   ↔ is_Some (causes !! lbl))
  ∧ default [] (render_failure_causes_chart data !! lbl)
    ≡ₚ default [] (causes !! lbl).
Proof.
  rewrite parse_folder_data_eq. intros [= <- <-].
  unfold render_failure_causes_chart. rewrite chart_fold.
  rewrite !dd_append_fold_empty.
  fold (all_events (fold_left (fun d kv => dd_append kv.1 kv.2 d)
                              (walk_events w) ∅)).
  assert (values_for lbl
            (all_events (fold_left (fun d kv => dd_append kv.1 kv.2 d)
                                   (walk_events w) ∅) ≫= cause_pairs)
          ≡ₚ values_for lbl ((walk_events w).*2 ≫= cause_pairs)) as Hperm.
  { unfold values_for. rewrite all_events_fold.
    unfold all_events. by rewrite map_to_list_empty. }
  destruct (values_for lbl (all_events _ ≫= _)) as [|p ps] eqn:H1;
    destruct (values_for lbl ((walk_events w).*2 ≫= _)) as [|q qs] eqn:H2;
    simpl.
  - split; [done|]. done.
  - by apply Permutation_nil_cons in Hperm.
  - symmetry in Hperm. by apply Permutation_nil_cons in Hperm.
  - split; [|done]. split; by eexists.
Qed.

Lemma chart_agrees_with_cause_index_witness :
  default []
    (render_failure_causes_chart
       {[ "unitA" := [Event 45 false "/data/unitA_001.txt"
                            "Voltage:Low, Job.Fail:1"];
          "unitB" := [Event 50 false "/data/unitB_001.txt"
                            "Voltage:Low, Temp:High"] ]}
       !! "Voltage:Low")
  ≡ₚ ["/data/unitA_001.txt"; "/data/unitB_001.txt"].
Proof.
  refine (proj2 (chart_agrees_with_cause_index
    [("/data", [FileEntry "unitA_001.txt" 45 (Ok "Voltage:Low, Job.Fail:1");
                FileEntry "unitB_001.txt" 50 (Ok "Voltage:Low, Temp:High")])]
    _ {[ "Voltage:Low" := ["/data/unitA_001.txt"; "/data/unitB_001.txt"];
         "Temp:High" := ["/data/unitB_001.txt"] ]}
    "Voltage:Low" _)).
  vm_compute. reflexivity.
Defined.

(* ===================================================================== *)
(** * What the filter selects                                             *)
(* ===================================================================== *)

Section FilterFacts.
Implicit Types (spec : filter_spec) (ev : event) (evs : list event).
Implicit Types (v : gmap string (list event)) (h : store).

Lemma keep_selected spec ev : keep spec ev = true ↔ selected spec ev.
Proof.
  unfold keep, skipped, selected. rewrite negb_true_iff.
  destruct spec as [o [s|] [e|]]; simpl;
    repeat match goal with
           | |- context [(?a <? ?b)%Z] => destruct (Z.ltb_spec a b)
           | |- context [(?a >? ?b)%Z] =>
               rewrite (Z.gtb_ltb a b); destruct (Z.ltb_spec b a)
           end;
    destruct o, (is_pass ev); simpl; split;
    try done;
    try (intros _; repeat split; try done; intros ? [= <-]; lia);
    try (intros (H1 & H2 & H3); try done;
         try (specialize (H1 _ eq_refl)); try (specialize (H2 _ eq_refl));
         lia).
Qed.

Lemma filtered_by_view spec h data v :
  read_dict h data = Some v →
  filtered_by spec h data = Some (filter_view spec v).
Proof.
  intros Hread. unfold filtered_by.
  by destruct (apply_filters_run spec h data v Hread) as (tail & -> & ->).
Qed.

Lemma list_filter_sublist {A} (f : A → bool) (l : list A) :
  List.filter f l `sublist_of` l.
Proof.
  induction l as [|x l IH]; simpl; [done|].
  destruct (f x); [by apply sublist_skip|by apply sublist_cons].
Qed.

Lemma list_filter_elem {A} (f : A → bool) (l : list A) x :
  x ∈ List.filter f l ↔ x ∈ l ∧ f x = true.
Proof. by rewrite !list_elem_of_In, filter_In. Qed.

Lemma list_filter_split {A} (f g : A → bool) (l : list A) :
  (∀ x, g x = negb (f x)) →
  l ≡ₚ List.filter f l ++ List.filter g l.
Proof.
  intros Hfg. induction l as [|x l IH]; simpl; [done|].
  rewrite (Hfg x). destruct (f x); simpl.
  - by f_equiv.
  - by rewrite <- Permutation_middle; f_equiv.
Qed.

End FilterFacts.

(** X8: the filter selects by date and verdict.  For every identity the
    list in the result is the list of the input with records left out and
    none reordered, and a record is in it exactly when it is in the input
    list, its date is neither before a valid start date nor after a valid
    end date (both inclusive), and its verdict matches the outcome
    filter. *)
Theorem apply_filters_selects spec (h : store) data v :
  read_dict h data = Some v →
  ∃ v',
    filtered_by spec h data = Some v'
    ∧ ∀ k evs, v !! k = Some evs →
        ∃ evs', v' !! k = Some evs'
                ∧ evs' `sublist_of` evs
                ∧ ∀ ev, ev ∈ evs' ↔ ev ∈ evs ∧ selected spec ev.
Proof.
  intros Hread. exists (filter_view spec v).
  split; [by apply filtered_by_view|].
  intros k evs Hk. exists (List.filter (keep spec) evs).
  split; [unfold filter_view; by rewrite lookup_fmap, Hk|].
  split; [apply list_filter_sublist|].
  intros ev. by rewrite list_filter_elem, keep_selected.
Qed.

Lemma apply_filters_selects_witness :
  let e1 := Event 45 false "/data/unitA_001.txt" "Voltage:Low, Job.Fail:1" in
  let e2 := Event 75 true "/data/unitA_002.txt" "Job.Pass:1" in
  let h := [OList [e1; e2]; ODict {[ "unitA" := 0 ]}] in
  ∃ v', filtered_by (FilterSpec Pass (Some 0%Z) None) h 1 = Some v'
        ∧ ∃ evs', v' !! "unitA" = Some evs' ∧ evs' `sublist_of` [e1; e2].
Proof.
  intros e1 e2 h.
  destruct (apply_filters_selects (FilterSpec Pass (Some 0%Z) None) h 1
              {[ "unitA" := [e1; e2] ]})
    as (v' & Hrun & Hsel); [vm_compute; reflexivity|].
  exists v'. split; [exact Hrun|].
  destruct (Hsel "unitA" [e1; e2]) as (evs' & Hk & Hsub & _);
    [vm_compute; reflexivity|].
  exists evs'. split; [exact Hk|exact Hsub].
Defined.

Section FilterAlgebra.
Implicit Types (o : outcome) (s e : option Z) (ev : event).

Lemma list_filter_andb {A} (f g : A → bool) (l : list A) :
  List.filter (fun x => f x && g x) l = List.filter g (List.filter f l).
Proof.
  induction l as [|x l IH]; simpl; [done|].
  destruct (f x); simpl; [|done]. destruct (g x); by rewrite IH.
Qed.

Lemma filter_ext_list {A} (f g : A → bool) (l : list A) :
  (∀ x, f x = g x) → List.filter f l = List.filter g l.
Proof.
  intros Hfg. induction l as [|x l IH]; simpl; [done|].
  by rewrite Hfg, IH.
Qed.

Lemma keep_pass s e ev :
  keep (FilterSpec Pass s e) ev = keep (FilterSpec All s e) ev && is_pass ev.
Proof.
  unfold keep, skipped. simpl.
  destruct (match s with Some _ => _ | None => _ end); [done|].
  destruct (match e with Some _ => _ | None => _ end); [done|].
  by destruct (is_pass ev).
Qed.

Lemma keep_fail s e ev :
  keep (FilterSpec Fail s e) ev
  = keep (FilterSpec All s e) ev && negb (is_pass ev).
Proof.
  unfold keep, skipped. simpl.
  destruct (match s with Some _ => _ | None => _ end); [done|].
  destruct (match e with Some _ => _ | None => _ end); [done|].
  by destruct (is_pass ev).
Qed.

Lemma keep_inverted o (s e : Z) ev :
  (e < s)%Z → keep (FilterSpec o (Some s) (Some e)) ev = false.
Proof.
  intros Hlt. unfold keep, skipped.
  cbn zeta beta iota delta [start_date end_date outcome_filter].
  destruct (Z.ltb_spec (date_of (ts ev)) s); [done|].
  destruct (Z.ltb_spec e (date_of (ts ev))); [done|lia].
Qed.

Lemma keep_all ev : keep (FilterSpec All None None) ev = true.
Proof. done. Qed.

Lemma list_filter_true {A} (f : A → bool) (l : list A) :
  (∀ x, f x = true) → List.filter f l = l.
Proof.
  intros Hf. induction l as [|x l IH]; simpl; [done|]. by rewrite Hf, IH.
Qed.

Lemma list_filter_false {A} (f : A → bool) (l : list A) :
  (∀ x, f x = false) → List.filter f l = [].
Proof.
  intros Hf. induction l as [|x l IH]; simpl; [done|]. by rewrite Hf.
Qed.

End FilterAlgebra.

(** X9: with the same dates, the Pass filter and the Fail filter split
    what the All filter returns: for every identity the All list is, up to
    order, the Pass list followed by the Fail list, so the two counts add
    up to the All count. *)
Theorem pass_and_fail_filters_partition s e (h : store) data v :
  read_dict h data = Some v →
  ∃ va vp vf,
    filtered_by (FilterSpec All s e) h data = Some va
    ∧ filtered_by (FilterSpec Pass s e) h data = Some vp
    ∧ filtered_by (FilterSpec Fail s e) h data = Some vf
    ∧ ∀ k, is_Some (v !! k) →
        ∃ la lp lf, va !! k = Some la ∧ vp !! k = Some lp ∧ vf !! k = Some lf
                    ∧ la ≡ₚ lp ++ lf
                    ∧ length la = length lp + length lf.
Proof.
  intros Hread.
  exists (filter_view (FilterSpec All s e) v),
         (filter_view (FilterSpec Pass s e) v),
         (filter_view (FilterSpec Fail s e) v).
  rewrite !(filtered_by_view _ _ _ _ Hread).
  split; [done|]. split; [done|]. split; [done|].
  intros k [evs Hk]. unfold filter_view. rewrite !lookup_fmap, Hk. simpl.
  eexists _, _, _. split; [done|]. split; [done|]. split; [done|].
  rewrite (filter_ext_list _ _ evs (keep_pass s e)).
  rewrite (filter_ext_list _ _ evs (keep_fail s e)).
  rewrite !list_filter_andb.
  assert (List.filter (keep (FilterSpec All s e)) evs
          ≡ₚ List.filter is_pass (List.filter (keep (FilterSpec All s e)) evs)
             ++ List.filter (fun ev => negb (is_pass ev))
                  (List.filter (keep (FilterSpec All s e)) evs)) as Hp
    by (by apply list_filter_split).
  split; [done|]. by rewrite Hp at 1; rewrite length_app.
Qed.

Lemma pass_and_fail_filters_partition_witness :
  let e1 := Event 45 false "/data/unitA_001.txt" "Voltage:Low, Job.Fail:1" in
  let e2 := Event 75 true "/data/unitA_002.txt" "Job.Pass:1" in
  let h := [OList [e1; e2]; ODict {[ "unitA" := 0 ]}] in
  ∃ va vp vf,
    filtered_by (FilterSpec All None None) h 1 = Some va
    ∧ filtered_by (FilterSpec Pass None None) h 1 = Some vp
    ∧ filtered_by (FilterSpec Fail None None) h 1 = Some vf.
Proof.
  intros e1 e2 h.
  destruct (pass_and_fail_filters_partition None None h 1
              {[ "unitA" := [e1; e2] ]})
    as (va & vp & vf & Ha & Hp & Hf & _); [vm_compute; reflexivity|].
  exists va, vp, vf. split; [exact Ha|]. split; [exact Hp|exact Hf].
Defined.

(** X10: an end date before the start date is not rejected; every record
    is then skipped, so the result keeps all identities, each with an
    empty list. *)
Theorem inverted_date_bounds_empty_every_group o (s e : Z) (h : store) data v :
  read_dict h data = Some v →
  (e < s)%Z →
  ∃ v', filtered_by (FilterSpec o (Some s) (Some e)) h data = Some v'
        ∧ dom v' = dom v
        ∧ ∀ k evs, v' !! k = Some evs → evs = [].
Proof.
  intros Hread Hlt. exists (filter_view (FilterSpec o (Some s) (Some e)) v).
  split; [by apply filtered_by_view|]. split; [apply dom_fmap_L|].
  intros k evs. unfold filter_view. rewrite lookup_fmap.
  destruct (v !! k) as [l|]; simpl; [|done]. intros [= <-].
  apply list_filter_false. intros ev. by apply keep_inverted.
Qed.

Lemma inverted_date_bounds_empty_every_group_witness :
  let e1 := Event 45 false "/data/unitA_001.txt" "Voltage:Low, Job.Fail:1" in
  let h := [OList [e1]; ODict {[ "unitA" := 0 ]}] in
  ∃ v', filtered_by (FilterSpec All (Some 10%Z) (Some 9%Z)) h 1 = Some v'
        ∧ dom v' = {[ "unitA" ]}.
Proof.
  intros e1 h.
  destruct (inverted_date_bounds_empty_every_group All 10 9 h 1
              {[ "unitA" := [e1] ]})
    as (v' & Hrun & Hdom & _); [vm_compute; reflexivity|lia|].
  exists v'. split; [exact Hrun|]. rewrite Hdom. vm_compute. reflexivity.
Defined.

(** X11: with the outcome filter All and no valid date, the filter
    returns a dict that denotes exactly what its argument denotes. *)
Theorem unrestricted_filter_is_a_copy (h : store) data v :
  read_dict h data = Some v →
  filtered_by (FilterSpec All None None) h data = Some v.
Proof.
  intros Hread. rewrite (filtered_by_view _ _ _ _ Hread). f_equal.
  apply map_eq. intros k. unfold filter_view. rewrite lookup_fmap.
  destruct (v !! k) as [l|]; simpl; [|done].
  f_equal. by apply list_filter_true.
Qed.

Lemma unrestricted_filter_is_a_copy_witness :
  let e1 := Event 45 false "/data/unitA_001.txt" "Voltage:Low, Job.Fail:1" in
  filtered_by (FilterSpec All None None)
              [OList [e1]; ODict {[ "unitA" := 0 ]}] 1
  = Some {[ "unitA" := [e1] ]}.
Proof.
  intros e1.
  apply (unrestricted_filter_is_a_copy
           [OList [e1]; ODict {[ "unitA" := 0 ]}] 1 {[ "unitA" := [e1] ]}).
  vm_compute. reflexivity.
Defined.

Section FilterObjects.
Context (spec : filter_spec).

Lemma apply_filters_run_objects (h : store) data v :
  read_dict h data = Some v →
  ∃ md outs,
    apply_filters spec data h = Some (length h, h ++ ODict md :: outs)
    ∧ represents (S (length h)) md outs (filter_view spec v).
Proof.
  intros Hread. apply read_dict_inv in Hread as (m & Hd & Hall & ->).
  destruct (filter_groups_run spec h (map_to_list m) ∅ [] ∅)
    as (md' & outs' & Hrun & Hrep).
  - intros k l Hin. apply elem_of_map_to_list in Hin. by apply (Hall k l).
  - intros k. by rewrite !lookup_empty.
  - exists md', outs'.
    rewrite apply_filters_unfold.
    unfold mbind, St_bind, alloc, dict_items.
    rewrite (lookup_app_l_Some _ _ _ _ Hd).
    split.
    + unfold mbind, St_bind in Hrun |- *. by rewrite Hrun.
    + by rewrite <- (filtered_items_view spec h m Hall).
Qed.

End FilterObjects.

(** X12: the dict returned by [apply_filters] and every list it refers to
    are objects created by the call: none of them is an object of the
    store the call started from, so the result shares neither the dict nor
    any list with its argument. *)
Theorem apply_filters_result_is_fresh spec (h : store) data v :
  read_dict h data = Some v →
  ∃ filtered h' md,
    apply_filters spec data h = Some (filtered, h')
    ∧ h' !! filtered = Some (ODict md)
    ∧ h !! filtered = None
    ∧ filtered ≠ data
    ∧ ∀ k l, md !! k = Some l →
        h !! l = None ∧ l ≠ filtered ∧ is_Some (read_list h' l).
Proof.
  intros Hread.
  destruct (apply_filters_run_objects spec h data v Hread)
    as (md & outs & Hrun & Hrep).
  exists (length h), (h ++ ODict md :: outs), md.
  split; [done|]. split; [by apply list_lookup_middle|].
  split; [by apply lookup_ge_None|]. split.
  { apply read_dict_inv in Hread as (m & Hd & _).
    apply lookup_lt_Some in Hd. lia. }
  intros k l Hk. specialize (Hrep k). rewrite Hk in Hrep.
  destruct Hrep as (j & es & -> & Hj & _).
  split; [apply lookup_ge_None; lia|]. split; [lia|].
  exists es. apply read_list_Some. by rewrite lookup_out.
Qed.

Lemma apply_filters_result_is_fresh_witness :
  let e1 := Event 45 false "/data/unitA_001.txt" "Voltage:Low, Job.Fail:1" in
  let h := [OList [e1]; ODict {[ "unitA" := 0 ]}] in
  ∃ filtered h' md,
    apply_filters (FilterSpec All None None) 1 h = Some (filtered, h')
    ∧ h' !! filtered = Some (ODict md)
    ∧ h !! filtered = None.
Proof.
  intros e1 h.
  destruct (apply_filters_result_is_fresh (FilterSpec All None None) h 1
              {[ "unitA" := [e1] ]})
    as (filtered & h' & md & H1 & H2 & H3 & _); [vm_compute; reflexivity|].
  exists filtered, h', md. split; [exact H1|]. split; [exact H2|exact H3].
Defined.

(* ===================================================================== *)
(** * Sorting and the cumulative series                                   *)
(* ===================================================================== *)

Section Sorting.
Context {A : Type} (lt : A → A → bool).
Implicit Types (x y : A) (l : list A).

Lemma insert_sorted_perm x l : insert_sorted lt x l ≡ₚ x :: l.
Proof.
  induction l as [|y l IH]; simpl; [done|].
  destruct (lt y x); [|done]. rewrite IH. apply perm_swap.
Qed.

Lemma py_sorted_perm l : py_sorted lt l ≡ₚ l.
Proof.
  induction l as [|x l IH]; simpl; [done|].
  by rewrite insert_sorted_perm, IH.
Qed.

Lemma py_sorted_nil l : py_sorted lt l = [] ↔ l = [].
Proof.
  split; [|by intros ->]. intros Hs.
  pose proof (py_sorted_perm l) as Hp. rewrite Hs in Hp.
  by apply Permutation_nil in Hp.
Qed.

Hypothesis lt_asym : ∀ x y, lt x y = true → lt y x = false.

Lemma insert_sorted_Sorted x l :
  Sorted (fun a b => lt b a = false) l →
  Sorted (fun a b => lt b a = false) (insert_sorted lt x l).
Proof.
  induction l as [|y l IH]; intros Hs; simpl.
  - by repeat constructor.
  - destruct (lt y x) eqn:Hyx.
    + apply Sorted_inv in Hs as [Hs Hhd]. constructor; [by apply IH|].
      destruct l as [|z l]; simpl.
      * constructor. by apply lt_asym.
      * destruct (lt z x); constructor.
        -- by apply HdRel_inv in Hhd.
        -- by apply lt_asym.
    + constructor; [done|]. by constructor.
Qed.

Lemma py_sorted_Sorted l : Sorted (fun a b => lt b a = false) (py_sorted lt l).
Proof.
  induction l as [|x l IH]; simpl; [constructor|].
  by apply insert_sorted_Sorted.
Qed.

End Sorting.

Section Series.
Implicit Types (evs events : list event).

Lemma seq_shift_count (r : Z) (a n : nat) :
  (fun i => (r + 1 + Z.of_nat i)%Z) <$> seq a n
  = (fun i => (r + Z.of_nat i)%Z) <$> seq (S a) n.
Proof.
  revert a. induction n as [|n IH]; intros a; [done|].
  cbn [seq fmap list_fmap]. f_equal; [lia|]. apply IH.
Qed.

Lemma time_points_cumulative evs xs ys r :
  fold_left
    (fun '(x_vals, y_vals, running) ev =>
       (x_vals ++ [ts ev], y_vals ++ [(running + 1)%Z], (running + 1)%Z))
    evs (xs, ys, r)
  = (xs ++ (ts <$> evs),
     ys ++ ((fun i => (r + Z.of_nat i)%Z) <$> seq 1 (length evs)),
     (r + Z.of_nat (length evs))%Z).
Proof.
  revert xs ys r. induction evs as [|ev evs IH]; intros xs ys r.
  - simpl. by rewrite !app_nil_r, Z.add_0_r.
  - cbn [fold_left length]. rewrite IH. cbn [fmap list_fmap seq].
    rewrite <- !app_assoc. cbn [app]. rewrite seq_shift_count.
    replace (r + Z.of_nat 1)%Z with (r + 1)%Z by lia.
    by replace (r + Z.of_nat (S (length evs)))%Z
      with (r + 1 + Z.of_nat (length evs))%Z by lia.
Qed.

Lemma time_points_flat evs (xs ys : list Z) (r : Z) :
  fold_left
    (fun '(x_vals, y_vals, running) ev =>
       (x_vals ++ [ts ev], y_vals ++ [1%Z], running))
    evs (xs, ys, r)
  = (xs ++ (ts <$> evs), ys ++ replicate (length evs) 1%Z, r).
Proof.
  revert xs ys. induction evs as [|ev evs IH]; intros xs ys.
  - simpl. by rewrite !app_nil_r.
  - cbn [fold_left length replicate]. rewrite IH. cbn [fmap list_fmap].
    by rewrite <- !app_assoc.
Qed.

Lemma ts_sorted events :
  Sorted Z.le (ts <$> py_sorted (fun a b => (ts a <? ts b)%Z) events).
Proof.
  pose proof (py_sorted_Sorted (fun a b => (ts a <? ts b)%Z)) as Hs.
  specialize (Hs (fun x y H => proj2 (Z.ltb_ge _ _)
                     (Z.lt_le_incl _ _ (proj1 (Z.ltb_lt _ _) H))) events).
  induction Hs as [|e l Hs IH Hhd]; cbn [fmap list_fmap]; [constructor|].
  constructor; [done|].
  destruct Hhd as [|e' l Hle]; cbn [fmap list_fmap]; constructor.
  by apply Z.ltb_ge.
Qed.

End Series.

(** X13: the cumulative series of one identity.  With no record there is
    no series.  Otherwise the x values are the records' timestamps in
    ascending order and the y values count 1, 2, ..., up to the number of
    records (all 1 when not cumulative); the dashboard's step chart draws
    the same series as the cumulative chart. *)
Theorem cumulative_series events :
  render_time_chart true [] = None
  ∧ dashboard_steps [] = None
  ∧ (events ≠ [] →
     ∃ xs, xs ≡ₚ ts <$> events
           ∧ Sorted Z.le xs
           ∧ render_time_chart true events
             = Some (xs, Z.of_nat <$> seq 1 (length events))
           ∧ dashboard_steps events
             = Some (xs, Z.of_nat <$> seq 1 (length events))
           ∧ render_time_chart false events
             = Some (xs, replicate (length events) 1%Z)).
Proof.
  split; [done|]. split; [done|]. intros Hne.
  set (lt := fun a b : event => (ts a <? ts b)%Z).
  exists (ts <$> py_sorted lt events).
  assert (py_sorted lt events ≠ []) as Hs by (by rewrite py_sorted_nil).
  assert (length (py_sorted lt events) = length events) as Hlen
    by (by rewrite py_sorted_perm).
  split; [by rewrite py_sorted_perm|]. split; [apply ts_sorted|].
  unfold render_time_chart, dashboard_steps, time_points. fold lt.
  rewrite time_points_cumulative, time_points_flat, Hlen. cbn [app].
  destruct (py_sorted lt events) as [|e l] eqn:Hsorted; [done|].
  split; [done|]. split; [|done].
  by destruct (ts <$> e :: l) eqn:Hx.
Qed.

Lemma cumulative_series_witness :
  render_time_chart true
    [Event 75 true "/data/unitA_002.txt" "Job.Pass:1";
     Event 45 false "/data/unitA_001.txt" "Job.Fail:1";
     Event 60 true "/data/unitA_003.txt" "Job.Pass:1"]
  = Some ([45; 60; 75]%Z, [1; 2; 3]%Z).
Proof.
  destruct (proj2 (proj2 (cumulative_series
    [Event 75 true "/data/unitA_002.txt" "Job.Pass:1";
     Event 45 false "/data/unitA_001.txt" "Job.Fail:1";
     Event 60 true "/data/unitA_003.txt" "Job.Pass:1"])))
    as (xs & _ & _ & H & _); [discriminate|].
  vm_compute. reflexivity.
Defined.

(* ===================================================================== *)
(** * Totals, gauges and summary counts                                   *)
(* ===================================================================== *)

Section Totals.
Implicit Types (items : list (string * list event)) (v : list event).

Lemma total_count_fold items (acc : Z) :
  fold_left (fun acc '(prefix, v) => (acc + Z.of_nat (length v))%Z) items acc
  = (acc + Z.of_nat (length (items ≫= snd)))%Z.
Proof.
  revert acc. induction items as [|[k v] items IH]; intros acc.
  - simpl. lia.
  - cbn [fold_left mbind list_bind snd]. rewrite IH, length_app. lia.
Qed.

Lemma count_pass_fold v (n : Z) :
  fold_left (fun n ev => if is_pass ev then (n + 1)%Z else n) v n
  = (n + Z.of_nat (length (List.filter is_pass v)))%Z.
Proof.
  revert n. induction v as [|ev v IH]; intros n.
  - simpl. lia.
  - cbn [fold_left List.filter]. rewrite IH.
    destruct (is_pass ev); simpl; lia.
Qed.

Lemma total_pass_fold items (acc : Z) :
  fold_left
    (fun acc '(prefix, v) =>
       (acc + fold_left (fun n ev => if is_pass ev then n + 1 else n) v 0)%Z)
    items acc
  = (acc + Z.of_nat (length (List.filter is_pass (items ≫= snd))))%Z.
Proof.
  revert acc. induction items as [|[k v] items IH]; intros acc.
  - simpl. lia.
  - cbn [fold_left mbind list_bind snd].
    rewrite IH, count_pass_fold, List.filter_app, length_app. lia.
Qed.

Lemma total_count_events (fd : gmap string (list event)) :
  total_count fd = Z.of_nat (length (all_events fd)).
Proof. unfold total_count. by rewrite total_count_fold. Qed.

Lemma total_pass_events (fd : gmap string (list event)) :
  total_pass fd = Z.of_nat (length (List.filter is_pass (all_events fd))).
Proof. unfold total_pass. by rewrite total_pass_fold. Qed.

Lemma total_fail_events (fd : gmap string (list event)) :
  total_fail fd
  = Z.of_nat (length (List.filter (fun ev => negb (is_pass ev))
                                  (all_events fd))).
Proof.
  unfold total_fail. rewrite total_count_events, total_pass_events.
  pose proof (list_filter_split is_pass (fun ev => negb (is_pass ev))
                (all_events fd) (fun _ => eq_refl)) as Hp.
  apply Permutation_length in Hp. rewrite length_app in Hp. lia.
Qed.

End Totals.

(** X14: the dashboard totals count the filtered records: the total is
    the number of records over all identities, the pass total the number
    of Pass records, and the fail total, computed as their difference, the
    number of Fail records.  Every gauge value lies between 0 and the gauge
    maximum, and the maximum is at least 1 (it is 1 when there is no
    record), so the gauge axis is never empty. *)
Theorem dashboard_totals (filtered_data : gmap string (list event)) :
  total_count filtered_data = Z.of_nat (length (all_events filtered_data))
  ∧ total_pass filtered_data
    = Z.of_nat (length (List.filter is_pass (all_events filtered_data)))
  ∧ total_fail filtered_data
    = Z.of_nat (length (List.filter (fun ev => negb (is_pass ev))
                                    (all_events filtered_data)))
  ∧ ∀ title val max_val color,
      (title, val, max_val, color) ∈ gauges filtered_data →
      (0 ≤ val ≤ max_val)%Z ∧ (1 ≤ max_val)%Z
      ∧ create_gauge val max_val = (val, max_val).
Proof.
  split; [apply total_count_events|]. split; [apply total_pass_events|].
  split; [apply total_fail_events|].
  intros title val max_val color Hin.
  pose proof (total_count_events filtered_data) as Hc.
  pose proof (total_pass_events filtered_data) as Hp.
  pose proof (total_fail_events filtered_data) as Hf.
  unfold total_fail in Hf.
  assert (∀ v m : Z, (0 ≤ v ≤ m)%Z → (1 ≤ m)%Z →
            (0 ≤ v ≤ m)%Z ∧ (1 ≤ m)%Z ∧ create_gauge v m = (v, m)) as Hg.
  { intros v m Hv Hm. split; [done|]. split; [done|].
    unfold create_gauge. f_equal. lia. }
  unfold gauges in Hin.
  destruct (Z.gtb_spec (total_count filtered_data) 0) as [Hpos|Hzero];
    repeat (apply elem_of_cons in Hin as [[= -> -> -> ->]|Hin];
            [apply Hg; lia|]);
    by apply elem_of_nil in Hin.
Qed.

Section FoldInsert.
Context `{Countable K} {V W : Type} (g : V → W).
Implicit Types (items : list (K * V)) (acc : gmap K W).

Lemma fold_insert_absent items acc k :
  k ∉ items.*1 →
  fold_left (fun acc '(k, v) => <[k := g v]> acc) items acc !! k = acc !! k.
Proof.
  revert acc. induction items as [|[k' v] items IH]; intros acc Hnot; [done|].
  simpl in *. apply not_elem_of_cons in Hnot as [Hk Hnot].
  rewrite IH by done. by rewrite lookup_insert_ne.
Qed.

Lemma fold_insert_present items acc k v :
  NoDup items.*1 → (k, v) ∈ items →
  fold_left (fun acc '(k, v) => <[k := g v]> acc) items acc !! k
  = Some (g v).
Proof.
  revert acc. induction items as [|[k' v'] items IH]; intros acc Hnd Hin.
  - by apply elem_of_nil in Hin.
  - simpl in *. apply NoDup_cons in Hnd as [Hk Hnd].
    apply elem_of_cons in Hin as [Heq|Hin].
    + injection Heq as <- <-. rewrite fold_insert_absent by done.
      by rewrite lookup_insert_eq.
    + by apply IH.
Qed.

Lemma fold_insert_fmap (m : gmap K V) :
  fold_left (fun acc '(k, v) => <[k := g v]> acc) (map_to_list m) ∅
  = g <$> m.
Proof.
  apply map_eq. intros k. rewrite lookup_fmap.
  destruct (m !! k) as [v|] eqn:Hk; simpl.
  - apply fold_insert_present; [apply NoDup_fst_map_to_list|].
    by apply elem_of_map_to_list.
  - rewrite fold_insert_absent; [done|].
    intros Hin. apply list_elem_of_fmap in Hin as ([k' v] & -> & Hin).
    apply elem_of_map_to_list in Hin. simpl in Hk. congruence.
Qed.

End FoldInsert.

(** X15: the summary chart has one count per identity of the filtered
    data, the length of its list (0 for an identity whose records were all
    filtered out), and the counts add up to the dashboard's total. *)
Theorem summary_counts_per_identity (filtered_data : gmap string (list event)) :
  (∀ k, summary_counts filtered_data !! k = length <$> filtered_data !! k)
  ∧ Z.of_nat (sum_list (map_to_list (summary_counts filtered_data)).*2)
    = total_count filtered_data.
Proof.
  unfold summary_counts. rewrite fold_insert_fmap.
  split; [intros k; by rewrite lookup_fmap|].
  rewrite total_count_events, map_to_list_fmap. f_equal.
  unfold all_events.
  induction (map_to_list filtered_data) as [|[k v] items IH]; [done|].
  cbn [fmap list_fmap mbind list_bind snd prod_map id].
  rewrite length_app. simpl in *. by rewrite IH.
Qed.

(* ===================================================================== *)
(** * The heartbeat table in full                                         *)
(* ===================================================================== *)

Section HeartbeatTable.
Implicit Types (g : gmap string (gmap Z counts)) (bins : gmap Z counts).
Implicit Types (events : list event) (ev : event) (prefix : string).
Implicit Types (fd : gmap string (list event)).

Lemma binned_ts_spec (t b : Z) :
  binned_ts t = b ↔ (b `mod` 60 = 0 ∧ b ≤ t < b + 60)%Z.
Proof.
  unfold binned_ts, time_bin. split.
  - intros <-. split; [by rewrite Z.mod_mul|].
    pose proof (Z.div_mod t 60). pose proof (Z.mod_pos_bound t 60). lia.
  - intros [Hmod Hrange].
    assert (b = 60 * (b / 60))%Z as Hb.
    { pose proof (Z.div_mod b 60). lia. }
    assert (t / 60 = b / 60)%Z as ->; [|lia].
    symmetry. apply (Z.div_unique t 60 (b / 60) (t - b)); lia.
Qed.

Lemma heartbeat_items_empty_group (items : list (string * list event)) g
    prefix :
  NoDup items.*1 → (prefix, []) ∈ items →
  fold_left (fun g '(k, evs) => fold_left (bump k) evs g) items g !! prefix
  = g !! prefix.
Proof.
  revert g. induction items as [|[k evs] items IH]; intros g Hnd Hin.
  - by apply elem_of_nil in Hin.
  - simpl in *. apply NoDup_cons in Hnd as [Hk Hnd].
    apply elem_of_cons in Hin as [Heq|Hin].
    + injection Heq as <- <-. by rewrite heartbeat_items_absent.
    + assert (k ≠ prefix) as Hkp.
      { intros ->. apply Hk. apply list_elem_of_fmap. by exists (prefix, []). }
      rewrite IH by done. by rewrite fold_bump_ne.
Qed.

Lemma heartbeat_lookup_inv fd prefix bins :
  render_heartbeat_chart fd !! prefix = Some bins →
  ∃ events, fd !! prefix = Some events ∧ events ≠ []
            ∧ bins = fold_left add_to_bins events ∅.
Proof.
  intros Hb. destruct (fd !! prefix) as [events|] eqn:Hl.
  - exists events. destruct events as [|ev events].
    + unfold render_heartbeat_chart in Hb.
      rewrite heartbeat_items_empty_group in Hb; [done| |].
      * apply NoDup_fst_map_to_list.
      * by apply elem_of_map_to_list.
    + rewrite (heartbeat_lookup fd prefix (ev :: events)) in Hb by done.
      by injection Hb as <-.
  - unfold render_heartbeat_chart in Hb.
    rewrite heartbeat_items_absent in Hb; [done|].
    intros Hin. apply list_elem_of_fmap in Hin as ([k evs] & -> & Hin).
    apply elem_of_map_to_list in Hin. simpl in Hl. congruence.
Qed.

Lemma fold_add_to_bins_Some events bins b :
  is_Some (fold_left add_to_bins events bins !! b)
  ↔ is_Some (bins !! b) ∨ ∃ ev, ev ∈ events ∧ binned_ts (ts ev) = b.
Proof.
  revert bins. induction events as [|ev events IH]; intros bins.
  - simpl. split; [by left|]. intros [?|(ev & Hin & _)]; [done|].
    by apply elem_of_nil in Hin.
  - cbn [fold_left]. rewrite IH. unfold add_to_bins at 1.
    destruct (decide (binned_ts (ts ev) = b)) as [Heq|Hne].
    + rewrite Heq, lookup_insert_eq. split.
      * intros _. right. exists ev. split; [by left|done].
      * intros _. left. by eexists.
    + rewrite lookup_insert_ne by done. split.
      * intros [?|(ev' & Hin & Hb)]; [by left|].
        right. exists ev'. split; [by right|done].
      * intros [?|(ev' & Hin & Hb)]; [by left|].
        apply elem_of_cons in Hin as [->|Hin]; [done|].
        right. by exists ev'.
Qed.

Lemma list_filter_false_elem {A} (f : A → bool) (l : list A) :
  (∀ x, x ∈ l → f x = false) → List.filter f l = [].
Proof.
  induction l as [|x l IH]; intros Hf; simpl; [done|].
  rewrite (Hf x) by by left. apply IH. intros y Hy. apply Hf. by right.
Qed.

Lemma bucket_count_zero b verdict events :
  (∀ ev, ev ∈ events → is_pass ev = negb verdict) →
  bucket_count b verdict events = 0.
Proof.
  intros Hall. unfold bucket_count.
  rewrite (list_filter_false_elem (in_bucket b verdict) events); [done|].
  intros ev Hin. unfold in_bucket. rewrite (Hall ev Hin).
  destruct verdict; apply andb_false_r.
Qed.

End HeartbeatTable.

(** X16: the heartbeat table, bucket by bucket.  An identity has an entry
    exactly when it has filtered records.  Its buckets are the multiples of
    60 whose 60-second window [b .. b+60) holds the timestamp of one of its
    records; a window without records has no bucket.  A bucket's pass and
    fail counts are the numbers of Pass and Fail records of the identity in
    that window. *)
Theorem heartbeat_buckets (filtered_data : gmap string (list event)) prefix :
  (is_Some (render_heartbeat_chart filtered_data !! prefix)
   ↔ ∃ events, filtered_data !! prefix = Some events ∧ events ≠ [])
  ∧ ∀ events bins,
      filtered_data !! prefix = Some events →
      render_heartbeat_chart filtered_data !! prefix = Some bins →
      ∀ b,
        (is_Some (bins !! b)
         ↔ ∃ ev, ev ∈ events ∧ (b `mod` 60 = 0 ∧ b ≤ ts ev < b + 60)%Z)
        ∧ ∀ c, bins !! b = Some c →
               pass_count c = bucket_count b true events
               ∧ fail_count c = bucket_count b false events.
Proof.
  split.
  - split.
    + intros [bins Hb]. apply heartbeat_lookup_inv in Hb as (events & ? & ? & _).
      by exists events.
    + intros (events & Hl & Hne). rewrite (heartbeat_lookup _ _ events) by done.
      by eexists.
  - intros events bins Hl Hb b.
    apply heartbeat_lookup_inv in Hb as (events' & Hl' & Hne & ->).
    rewrite Hl in Hl'. injection Hl' as <-. split.
    + rewrite fold_add_to_bins_Some, lookup_empty. split.
      * intros [[? [=]]|(ev & Hin & Hbin)]. exists ev.
        split; [done|]. by apply binned_ts_spec.
      * intros (ev & Hin & Hbin). right. exists ev.
        split; [done|]. by apply binned_ts_spec.
    + intros c Hc.
      pose proof (fold_add_to_bins_counts events ∅ b) as Hcount.
      rewrite Hc, lookup_empty in Hcount. simpl in Hcount.
      by rewrite Hcount.
Qed.

Lemma heartbeat_buckets_witness :
  let e1 := Event 60 false "/data/unitA_001.txt" "Job.Fail:1" in
  let e2 := Event 119 true "/data/unitA_002.txt" "Job.Pass:1" in
  ∃ bins c, render_heartbeat_chart {[ "unitA" := [e1; e2] ]} !! "unitA"
            = Some bins
            ∧ bins !! 60%Z = Some c
            ∧ pass_count c = 1 ∧ fail_count c = 1.
Proof.
  intros e1 e2.
  exists {[ 60%Z := Counts 1 1 ]}, (Counts 1 1).
  split; [vm_compute; reflexivity|]. split; [vm_compute; reflexivity|].
  refine (proj2 (proj2 (heartbeat_buckets {[ "unitA" := [e1; e2] ]} "unitA")
                   [e1; e2] {[ 60%Z := Counts 1 1 ]} _ _ 60%Z)
                (Counts 1 1) _);
    vm_compute; reflexivity.
Defined.

Section HeartbeatSeries.
Implicit Types (bins : gmap Z counts) (events : list event) (ev : event).

Lemma bins_total_insert_fresh bins b c :
  bins !! b = None →
  bins_total (<[b := c]> bins) = pass_count c + fail_count c + bins_total bins.
Proof.
  intros Hb. unfold bins_total. by rewrite map_to_list_insert.
Qed.

Lemma bins_total_add bins ev : bins_total (add_to_bins bins ev) = S (bins_total bins).
Proof.
  unfold add_to_bins. set (b := binned_ts (ts ev)).
  destruct (bins !! b) as [c|] eqn:Hb; simpl.
  - rewrite <- (insert_delete_eq bins b).
    rewrite <- (insert_delete_id bins b c) at 2 by done.
    rewrite !bins_total_insert_fresh by apply lookup_delete_eq.
    destruct (is_pass ev); simpl; lia.
  - rewrite bins_total_insert_fresh by done.
    destruct (is_pass ev); simpl; lia.
Qed.

Lemma bins_total_fold events bins :
  bins_total (fold_left add_to_bins events bins)
  = bins_total bins + length events.
Proof.
  revert bins. induction events as [|ev events IH]; intros bins.
  - simpl. lia.
  - cbn [fold_left length]. rewrite IH, bins_total_add. lia.
Qed.

Lemma sum_over_keys bins (f : counts → nat) :
  sum_list ((fun t => f (default (Counts 0 0) (bins !! t)))
              <$> (map_to_list bins).*1)
  = sum_list_with (fun kv => f kv.2) (map_to_list bins).
Proof.
  assert (∀ kv, kv ∈ map_to_list bins → bins !! kv.1 = Some kv.2) as Hall.
  { intros [k c] Hin. by apply elem_of_map_to_list. }
  induction (map_to_list bins) as [|[k c] l IH]; [done|].
  cbn [fmap list_fmap sum_list_with fst snd id].
  pose proof (Hall (k, c) ltac:(by left)) as Hk. simpl in Hk.
  rewrite Hk. simpl. f_equal.
  apply IH. intros kv Hin. apply Hall. by right.
Qed.

Lemma sum_list_fmap_perm {A} (f : A → nat) (l k : list A) :
  l ≡ₚ k → sum_list (f <$> l) = sum_list (f <$> k).
Proof. intros Hp. by rewrite Hp. Qed.

Lemma sum_list_with_plus {A} (f g : A → nat) (l : list A) :
  sum_list_with (fun x => f x + g x) l
  = sum_list_with f l + sum_list_with g l.
Proof. induction l as [|x l IH]; simpl; lia. Qed.

Lemma sorted_nodup_strict (l : list Z) :
  Sorted (fun a b => (b <? a)%Z = false) l → NoDup l → StronglySorted Z.lt l.
Proof.
  intros Hs Hnd.
  assert (StronglySorted Z.le l) as Hss.
  { apply Sorted_StronglySorted; [intros x y z; apply Z.le_trans|].
    induction Hs as [|a l Hs IH Hhd]; [constructor|].
    apply NoDup_cons in Hnd as [_ Hnd].
    constructor; [by apply IH|].
    destruct Hhd; constructor. by apply Z.ltb_ge. }
  clear Hs. induction Hss as [|a l Hss IH Hall]; [constructor|].
  apply NoDup_cons in Hnd as [Ha Hnd]. constructor; [by apply IH|].
  rewrite Forall_forall in Hall |- *. intros x Hx.
  assert (a ≠ x) by (intros ->; by apply Ha, list_elem_of_In).
  specialize (Hall x Hx). lia.
Qed.

End HeartbeatSeries.

(** X17: what the heartbeat chart plots for one identity.  The bucket
    times are strictly increasing and are exactly the buckets of the
    table; there is one pass value and one fail value per time; and the
    pass and fail values together add up to the number of filtered records
    of the identity, so every record is counted once. *)
Theorem heartbeat_series_counts_every_record
    (filtered_data : gmap string (list event)) prefix events bins :
  filtered_data !! prefix = Some events →
  render_heartbeat_chart filtered_data !! prefix = Some bins →
  ∃ times pass_vals fail_vals,
    heartbeat_series bins = (times, pass_vals, fail_vals)
    ∧ StronglySorted Z.lt times
    ∧ (∀ t, t ∈ times ↔ is_Some (bins !! t))
    ∧ length pass_vals = length times
    ∧ length fail_vals = length times
    ∧ sum_list pass_vals + sum_list fail_vals = length events.
Proof.
  intros Hl Hb.
  apply heartbeat_lookup_inv in Hb as (events' & Hl' & Hne & ->).
  rewrite Hl in Hl'. injection Hl' as <-.
  set (bins := fold_left add_to_bins events ∅).
  pose proof (py_sorted_perm Z.ltb (map_to_list bins).*1) as Hperm.
  eexists _, _, _. split; [done|]. split; [|split; [|split; [|split]]].
  - apply sorted_nodup_strict.
    + apply py_sorted_Sorted. intros x y Hxy.
      apply Z.ltb_ge. apply Z.ltb_lt in Hxy. lia.
    + rewrite Hperm. apply NoDup_fst_map_to_list.
  - intros t. rewrite Hperm, list_elem_of_fmap. split.
    + intros ([k c] & -> & Hin). apply elem_of_map_to_list in Hin.
      by eexists.
    + intros [c Hc]. exists (t, c). split; [done|].
      by apply elem_of_map_to_list.
  - by rewrite length_fmap.
  - by rewrite length_fmap.
  - rewrite !(sum_list_fmap_perm _ _ _ Hperm), !sum_over_keys.
    rewrite <- sum_list_with_plus.
    fold (bins_total bins). unfold bins. rewrite bins_total_fold.
    unfold bins_total. by rewrite map_to_list_empty.
Qed.

Lemma heartbeat_series_counts_every_record_witness :
  let e1 := Event 60 false "/data/unitA_001.txt" "Job.Fail:1" in
  let e2 := Event 125 true "/data/unitA_002.txt" "Job.Pass:1" in
  ∃ times pass_vals fail_vals,
    heartbeat_series {[ 60%Z := Counts 0 1; 120%Z := Counts 1 0 ]}
    = (times, pass_vals, fail_vals)
    ∧ sum_list pass_vals + sum_list fail_vals = 2.
Proof.
  intros e1 e2.
  destruct (heartbeat_series_counts_every_record
              {[ "unitA" := [e1; e2] ]} "unitA" [e1; e2]
              {[ 60%Z := Counts 0 1; 120%Z := Counts 1 0 ]})
    as (times & pv & fv & H1 & _ & _ & _ & _ & H2);
    [vm_compute; reflexivity|vm_compute; reflexivity|].
  exists times, pv, fv. split; [exact H1|exact H2].
Defined.

(* ===================================================================== *)
(** * Filtering and the aggregations together                             *)
(* ===================================================================== *)

Section FilteredAggregates.
Implicit Types (fd v : gmap string (list event)) (ev : event).

Lemma all_events_elem fd ev :
  ev ∈ all_events fd ↔ ∃ k evs, fd !! k = Some evs ∧ ev ∈ evs.
Proof.
  unfold all_events. rewrite list_elem_of_bind. split.
  - intros ([k evs] & Hin & Hkv). apply elem_of_map_to_list in Hkv.
    by exists k, evs.
  - intros (k & evs & Hk & Hin). exists (k, evs). split; [done|].
    by apply elem_of_map_to_list.
Qed.

Lemma filter_view_events spec v ev :
  ev ∈ all_events (filter_view spec v) → keep spec ev = true.
Proof.
  rewrite all_events_elem. intros (k & evs & Hk & Hin).
  unfold filter_view in Hk. rewrite lookup_fmap in Hk.
  destruct (v !! k) as [l|]; simpl in Hk; [|done]. injection Hk as <-.
  by apply list_filter_elem in Hin as [_ ?].
Qed.

Lemma bind_nil_elem {A B} (f : A → list B) (l : list A) :
  (∀ x, x ∈ l → f x = []) → l ≫= f = [].
Proof.
  induction l as [|x l IH]; intros Hf; [done|].
  cbn [mbind list_bind]. rewrite (Hf x) by by left.
  apply IH. intros y Hy. apply Hf. by right.
Qed.

Lemma all_pass_aggregates fd :
  (∀ ev, ev ∈ all_events fd → is_pass ev = true) →
  render_failure_causes_chart fd = ∅
  ∧ total_fail fd = 0%Z
  ∧ ∀ prefix bins b c,
      render_heartbeat_chart fd !! prefix = Some bins →
      bins !! b = Some c → fail_count c = 0.
Proof.
  intros Hall. split; [|split].
  - unfold render_failure_causes_chart. rewrite chart_fold.
    fold (all_events fd). rewrite bind_nil_elem; [done|].
    intros ev Hin. unfold cause_pairs. by rewrite (Hall ev Hin).
  - rewrite total_fail_events.
    rewrite (list_filter_false_elem _ (all_events fd)); [done|].
    intros ev Hin. by rewrite (Hall ev Hin).
  - intros prefix bins b c Hb Hc.
    apply heartbeat_lookup_inv in Hb as (events & Hl & _ & ->).
    pose proof (fold_add_to_bins_counts events ∅ b) as Hcount.
    rewrite Hc, lookup_empty in Hcount. simpl in Hcount. rewrite Hcount.
    simpl. apply bucket_count_zero. intros ev Hin. simpl.
    apply Hall, all_events_elem. by exists prefix, events.
Qed.

Lemma all_fail_aggregates fd :
  (∀ ev, ev ∈ all_events fd → is_pass ev = false) →
  total_pass fd = 0%Z
  ∧ ∀ prefix bins b c,
      render_heartbeat_chart fd !! prefix = Some bins →
      bins !! b = Some c → pass_count c = 0.
Proof.
  intros Hall. split.
  - rewrite total_pass_events.
    rewrite (list_filter_false_elem _ (all_events fd)); [done|].
    intros ev Hin. by rewrite (Hall ev Hin).
  - intros prefix bins b c Hb Hc.
    apply heartbeat_lookup_inv in Hb as (events & Hl & _ & ->).
    pose proof (fold_add_to_bins_counts events ∅ b) as Hcount.
    rewrite Hc, lookup_empty in Hcount. simpl in Hcount. rewrite Hcount.
    simpl. apply bucket_count_zero. intros ev Hin. simpl.
    apply Hall, all_events_elem. by exists prefix, events.
Qed.

End FilteredAggregates.

(** X18: the side a one-sided outcome filter hides is empty everywhere.
    Under the Pass filter (the heartbeat chart then draws no fail series)
    the failure-cause chart has no cause, the fail total is 0 and every
    bucket's fail count is 0; under the Fail filter (no pass series) the
    pass total is 0 and every bucket's pass count is 0. *)
Theorem hidden_side_is_zero o s e (h : store) data v :
  read_dict h data = Some v →
  ∃ v',
    filtered_by (FilterSpec o s e) h data = Some v'
    ∧ (show_fail o = false →
       render_failure_causes_chart v' = ∅
       ∧ total_fail v' = 0%Z
       ∧ ∀ prefix bins b c,
           render_heartbeat_chart v' !! prefix = Some bins →
           bins !! b = Some c → fail_count c = 0)
    ∧ (show_pass o = false →
       total_pass v' = 0%Z
       ∧ ∀ prefix bins b c,
           render_heartbeat_chart v' !! prefix = Some bins →
           bins !! b = Some c → pass_count c = 0).
Proof.
  intros Hread. exists (filter_view (FilterSpec o s e) v).
  split; [by apply filtered_by_view|]. split.
  - intros Hshow. destruct o; try done.
    apply all_pass_aggregates. intros ev Hin.
    apply filter_view_events, keep_selected in Hin. by destruct Hin as (_ & _ & ?).
  - intros Hshow. destruct o; try done.
    apply all_fail_aggregates. intros ev Hin.
    apply filter_view_events, keep_selected in Hin. by destruct Hin as (_ & _ & ?).
Qed.

Lemma hidden_side_is_zero_witness :
  let e1 := Event 45 false "/data/unitA_001.txt" "Voltage:Low, Job.Fail:1" in
  let e2 := Event 75 true "/data/unitA_002.txt" "Job.Pass:1" in
  let h := [OList [e1; e2]; ODict {[ "unitA" := 0 ]}] in
  ∃ v', filtered_by (FilterSpec Pass None None) h 1 = Some v'
        ∧ render_failure_causes_chart v' = ∅
        ∧ total_fail v' = 0%Z.
Proof.
  intros e1 e2 h.
  destruct (hidden_side_is_zero Pass None None h 1 {[ "unitA" := [e1; e2] ]})
    as (v' & Hrun & Hfail & _); [vm_compute; reflexivity|].
  destruct (Hfail eq_refl) as (Hchart & Htotal & _).
  exists v'. split; [exact Hrun|]. split; [exact Hchart|exact Htotal].
Defined.

(* ===================================================================== *)
(** * The pager: pages, clicks, round trips                               *)
(* ===================================================================== *)

Section Pages.
Import FolderViewer.
Implicit Types (v : FolderViewer.t).

Lemma chunks_join {A} (s n : nat) (l : list A) :
  0 < s → (length l ≤ n * s)%nat →
  mjoin ((fun k => slice (k * s) (k * s + s) l) <$> seq 0 n) = l.
Proof.
  intros Hs. revert l. induction n as [|n IH]; intros l Hlen.
  - destruct l; [done|simpl in Hlen; lia].
  - cbn [seq fmap list_fmap mjoin list_join]. rewrite <- fmap_S_seq.
    rewrite <- list_fmap_compose.
    trans (take s l ++ drop s l); [|apply take_drop]. f_equal.
    + unfold slice. simpl. by replace (s - 0) with s by lia.
    + trans (mjoin ((fun k => slice (k * s) (k * s + s) (drop s l))
                      <$> seq 0 n));
        [|apply IH; rewrite length_drop; lia].
      f_equal. apply list_fmap_ext. intros _ k _. unfold slice. simpl.
      rewrite drop_drop. repeat (f_equal; try lia).
Qed.

Lemma page_count_covers v :
  0 < page_size v → (length (all_rows v) ≤ page_count v * page_size v)%nat.
Proof.
  intros Hs. unfold page_count.
  pose proof (Nat.mul_succ_div_gt (length (all_rows v) + page_size v - 1)
                                  (page_size v)).
  nia.
Qed.

Lemma refresh_page_table v :
  table (refresh_page v) = page_rows v (current_page v).
Proof. done. Qed.

Lemma refresh_displays v : displays_current_page (refresh_page v).
Proof.
  split; [done|]. unfold refresh_page. simpl.
  by destruct (slice _ _ _).
Qed.

Lemma page_rows_lookup v k r row :
  page_rows v k !! r = Some row →
  (r < page_size v)%nat ∧ all_rows v !! (k * page_size v + r) = Some row.
Proof.
  unfold page_rows, slice. intros Hl.
  apply lookup_take_Some in Hl as [Hl Hr]. rewrite lookup_drop in Hl.
  split; [lia|done].
Qed.

End Pages.

(** X19: the pages split the row list.  For a positive page size, the
    tables shown on pages [0 .. page_count - 1], one after the other, are
    exactly [all_rows]: every row is on one page, in order, and none is
    shown twice. *)
Theorem pages_partition_all_rows (v : FolderViewer.t) :
  0 < FolderViewer.page_size v →
  mjoin ((fun k => FolderViewer.table
                     (FolderViewer.refresh_page
                        (FolderViewer.set_current_page k v)))
           <$> seq 0 (FolderViewer.page_count v))
  = FolderViewer.all_rows v.
Proof.
  intros Hs.
  exact (chunks_join (FolderViewer.page_size v) (FolderViewer.page_count v)
           (FolderViewer.all_rows v) Hs (page_count_covers v Hs)).
Qed.

Lemma pages_partition_all_rows_witness :
  let rows := [FolderViewer.Row "t1" "unitA_001" "x" "" "a1";
               FolderViewer.Row "t2" "unitA_002" "x" "" "a2";
               FolderViewer.Row "t3" "unitA_003" "x" "" "a3"] in
  let v := FolderViewer.opened rows 2 in
  mjoin ((fun k => FolderViewer.table
                     (FolderViewer.refresh_page
                        (FolderViewer.set_current_page k v)))
           <$> seq 0 (FolderViewer.page_count v))
  = rows.
Proof.
  intros rows v. apply (pages_partition_all_rows v). vm_compute. lia.
Defined.

(** X20: a click on a row of the table shows that row's image.  When the
    viewer displays its current page and the table has a row at index [r],
    [row_clicked(r, col)] shows the image of exactly that row and changes
    nothing else; a click whose index falls outside [all_rows] changes
    nothing. *)
Theorem row_clicked_shows_the_clicked_row (v : FolderViewer.t) :
  displays_current_page v →
  (∀ r col row,
     FolderViewer.table v !! r = Some row →
     FolderViewer.row_clicked (Z.of_nat r) col v
     = FolderViewer.show_image (FolderViewer.r_img_path row) v)
  ∧ (∀ row col,
       (Z.of_nat (FolderViewer.current_page v * FolderViewer.page_size v)
        + row < 0
        ∨ Z.of_nat (length (FolderViewer.all_rows v))
          ≤ Z.of_nat (FolderViewer.current_page v * FolderViewer.page_size v)
            + row)%Z →
       FolderViewer.row_clicked row col v = v).
Proof.
  intros [Htable _]. split.
  - intros r col row Hr. rewrite Htable in Hr.
    apply page_rows_lookup in Hr as [Hlt Hrow].
    unfold FolderViewer.row_clicked.
    pose proof (lookup_lt_Some _ _ _ Hrow) as Hlen.
    destruct (Z.leb_spec 0
      (Z.of_nat (FolderViewer.current_page v * FolderViewer.page_size v)
       + Z.of_nat r)); [|lia].
    destruct (Z.ltb_spec
      (Z.of_nat (FolderViewer.current_page v * FolderViewer.page_size v)
       + Z.of_nat r) (Z.of_nat (length (FolderViewer.all_rows v)))); [|lia].
    simpl. rewrite <- Nat2Z.inj_add, Nat2Z.id. by rewrite Hrow.
  - intros row col Hout. unfold FolderViewer.row_clicked.
    destruct (Z.leb_spec 0
      (Z.of_nat (FolderViewer.current_page v * FolderViewer.page_size v)
       + row)); [|done].
    destruct (Z.ltb_spec
      (Z.of_nat (FolderViewer.current_page v * FolderViewer.page_size v)
       + row) (Z.of_nat (length (FolderViewer.all_rows v)))); [lia|done].
Qed.

Lemma row_clicked_shows_the_clicked_row_witness :
  let rows := [FolderViewer.Row "t1" "unitA_001" "x" "" "a1";
               FolderViewer.Row "t2" "unitA_002" "x" "" "a2";
               FolderViewer.Row "t3" "unitA_003" "x" "" "a3"] in
  let v := FolderViewer.next_page (FolderViewer.opened rows 2) in
  FolderViewer.image (FolderViewer.row_clicked 0 0 v) = Some "a3".
Proof.
  intros rows v.
  pose proof (proj1 (row_clicked_shows_the_clicked_row v
                       ltac:(vm_compute; split; reflexivity))
                    0 0%Z (FolderViewer.Row "t3" "unitA_003" "x" "" "a3")
                    ltac:(vm_compute; reflexivity)) as H.
  change (Z.of_nat 0) with 0%Z in H. rewrite H. reflexivity.
Defined.

(** X21: next and previous undo each other.  On a viewer that displays
    its current page, [prev_page] after [next_page] restores the viewer
    when it was not on the last page, and [next_page] after [prev_page]
    restores it when it was on a valid page other than the first. *)
Theorem next_and_prev_are_inverse (v : FolderViewer.t) :
  displays_current_page v →
  ((FolderViewer.current_page v + 1) * FolderViewer.page_size v
     < length (FolderViewer.all_rows v) →
   FolderViewer.prev_page (FolderViewer.next_page v) = v)
  ∧ (0 < FolderViewer.current_page v →
     FolderViewer.current_page v * FolderViewer.page_size v
       < length (FolderViewer.all_rows v) →
     FolderViewer.next_page (FolderViewer.prev_page v) = v).
Proof.
  intros [Htable Himage]. destruct v as [rows size cp tbl img].
  unfold page_rows in Htable. simpl in *. split.
  - intros Hlt. unfold FolderViewer.next_page. simpl.
    destruct (Nat.ltb_spec ((cp + 1) * size) (length rows)); [|lia].
    unfold FolderViewer.prev_page. simpl.
    destruct (Nat.ltb_spec 0 (cp + 1)); [|lia].
    unfold FolderViewer.refresh_page, FolderViewer.set_current_page. simpl.
    replace (cp + 1 - 1) with cp by lia.
    rewrite <- Htable. f_equal. rewrite Himage. by destruct tbl.
  - intros Hpos Hvalid. unfold FolderViewer.prev_page. simpl.
    destruct (Nat.ltb_spec 0 cp); [|lia].
    unfold FolderViewer.next_page. simpl.
    replace (cp - 1 + 1) with cp by lia.
    destruct (Nat.ltb_spec (cp * size) (length rows)); [|lia].
    unfold FolderViewer.refresh_page, FolderViewer.set_current_page. simpl.
    replace (cp - 1 + 1) with cp by lia.
    rewrite <- Htable. f_equal. rewrite Himage. by destruct tbl.
Qed.

Lemma next_and_prev_are_inverse_witness :
  let rows := [FolderViewer.Row "t1" "unitA_001" "x" "" "a1";
               FolderViewer.Row "t2" "unitA_002" "x" "" "a2";
               FolderViewer.Row "t3" "unitA_003" "x" "" "a3"] in
  let v := FolderViewer.opened rows 2 in
  FolderViewer.prev_page (FolderViewer.next_page v) = v.
Proof.
  intros rows v.
  apply (proj1 (next_and_prev_are_inverse v
                  ltac:(vm_compute; split; reflexivity))).
  vm_compute. lia.
Defined.

Section Navigation.
Import FolderViewer.
Implicit Types (v : FolderViewer.t) (a : action).

Lemma valid_refresh rows v k :
  all_rows v = rows → 0 < page_size v →
  (k * page_size v < length rows ∨ (rows = [] ∧ k = 0)) →
  valid rows (refresh_page (set_current_page k v)).
Proof. intros Hrows Hs Hk. by repeat split. Qed.

Lemma valid_act rows v a : sane a → valid rows v → valid rows (act v a).
Proof.
  intros Hsane (Hrows & Hs & Htable & Hpage).
  destruct a as [| | | |size|row col]; simpl.
  - apply valid_refresh; [done..|].
    destruct rows; [by right|left; simpl; lia].
  - unfold prev_page. destruct (Nat.ltb_spec 0 (current_page v)); [|done].
    apply valid_refresh; [done..|]. left.
    destruct Hpage as [Hlt|[_ ?]]; [nia|lia].
  - unfold next_page. rewrite Hrows.
    destruct (Nat.ltb_spec ((current_page v + 1) * page_size v)
                           (length rows)); [|done].
    apply valid_refresh; [done..|]. by left.
  - unfold last_page. rewrite Hrows. destruct rows as [|r rows]; [done|].
    apply valid_refresh; [done..|]. left.
    apply last_index_start; [simpl; lia|done].
  - unfold change_page_size. simpl in Hsane.
    repeat split; [done..|]. simpl.
    destruct rows; [by right|left; simpl; lia].
  - unfold row_clicked.
    destruct (_ && _); [|done].
    destruct (all_rows v !! _); done.
Qed.

Lemma valid_run rows v acts :
  Forall sane acts → valid rows v → valid rows (foldl act v acts).
Proof.
  intros Hsane. revert v.
  induction Hsane as [|a acts Ha _ IH]; intros v Hv; [done|].
  simpl. apply IH. by apply valid_act.
Qed.

Lemma valid_shows rows v :
  valid rows v →
  all_rows v = rows
  ∧ 0 < page_size v
  ∧ table v = page_rows v (current_page v)
  ∧ (rows ≠ [] → table v ≠ [] ∧ current_page v < page_count v)
  ∧ (rows = [] → table v = [] ∧ current_page v = 0).
Proof.
  intros (Hrows & Hs & Htable & Hpage).
  split; [done|]. split; [done|]. split; [done|]. split.
  - intros Hne. destruct Hpage as [Hlt|[? _]]; [|done]. split.
    + intros Hnil. rewrite Htable in Hnil.
      apply (f_equal length) in Hnil. unfold page_rows in Hnil.
      rewrite slice_length, Hrows in Hnil. simpl in Hnil. lia.
    + pose proof (page_count_covers v Hs) as Hc. rewrite Hrows in Hc. nia.
  - intros ->. destruct Hpage as [Hlt|[_ Hcp]]; [simpl in Hlt; lia|].
    split; [|done]. rewrite Htable. unfold page_rows, slice.
    rewrite Hrows. by rewrite drop_nil, take_nil.
Qed.

Lemma valid_opened rows size : 0 < size → valid rows (opened rows size).
Proof.
  intros Hs. repeat split; [done..|]. simpl.
  destruct rows; [by right|left; simpl; lia].
Qed.

Lemma navigation_valid rows size acts :
  0 < size → Forall sane acts →
  let v := foldl act (opened rows size) acts in
  all_rows v = rows
  ∧ 0 < page_size v
  ∧ table v = page_rows v (current_page v)
  ∧ (rows ≠ [] → table v ≠ [] ∧ current_page v < page_count v)
  ∧ (rows = [] → table v = [] ∧ current_page v = 0).
Proof.
  intros Hs Hsane. apply valid_shows, valid_run; [done|].
  by apply valid_opened.
Qed.

End Navigation.

(** X22: whatever the user does, the viewer stays on a valid page.  From
    an opened viewer with a positive page size, after any sequence of
    first / previous / next / last, page-size changes (to a positive size)
    and row clicks, the row list is the one it was opened with, the table
    holds the rows of the current page, and when there are rows the page
    index is below the page count and the table is not empty. *)
Theorem navigation_keeps_a_valid_page rows size acts :
  0 < size → Forall sane acts →
  let v := foldl act (FolderViewer.opened rows size) acts in
  FolderViewer.all_rows v = rows
  ∧ 0 < FolderViewer.page_size v
  ∧ FolderViewer.table v = page_rows v (FolderViewer.current_page v)
  ∧ (rows ≠ [] →
     FolderViewer.table v ≠ []
     ∧ FolderViewer.current_page v < FolderViewer.page_count v)
  ∧ (rows = [] →
     FolderViewer.table v = [] ∧ FolderViewer.current_page v = 0).
Proof. apply navigation_valid. Qed.

Lemma navigation_keeps_a_valid_page_witness :
  let rows := [FolderViewer.Row "t1" "unitA_001" "x" "" "a1";
               FolderViewer.Row "t2" "unitA_002" "x" "" "a2";
               FolderViewer.Row "t3" "unitA_003" "x" "" "a3"] in
  let v := foldl act (FolderViewer.opened rows 2)
                 [NextPage; NextPage; ChangePageSize 1; LastPage;
                  RowClicked 0 0; PrevPage] in
  FolderViewer.all_rows v = rows ∧ 0 < FolderViewer.page_size v.
Proof.
  intros rows v.
  destruct (navigation_keeps_a_valid_page rows 2
              [NextPage; NextPage; ChangePageSize 1; LastPage;
               RowClicked 0 0; PrevPage])
    as (H1 & H2 & _); [lia|repeat constructor|].
  split; [exact H1|exact H2].
Defined.

(* ===================================================================== *)
(** * The rows of the image table                                         *)
(* ===================================================================== *)

Section TableRows.
Import FolderViewer.
Context (strftime : Z → string) (listing : list file_entry) (folder : string).
Implicit Types (o : outcome) (f p : string).

Lemma prefix_without_spaces s p :
  has_char " " s = false →
  String.prefix s (upper p) = true →
  String.prefix s (upper (remove_spaces p)) = true.
Proof.
  revert p. induction s as [|a s IH]; intros p Hs Hp;
    [by destruct (upper (remove_spaces p))|].
  destruct p as [|c p]; [done|]. simpl in Hs, Hp.
  apply orb_false_iff in Hs as [Ha Hs].
  destruct (ascii_dec a (upper_char c)) as [->|]; [|done].
  assert (Ascii.eqb c " " = false) as Hc.
  { destruct (Ascii.eqb_spec c " ") as [->|]; [|done].
    by vm_compute in Ha. }
  unfold upper in *. simpl. rewrite Hc. simpl.
  destruct (ascii_dec _ _); [|done]. by apply IH.
Qed.

Lemma read_values_keep_causes lbl :
  negb (is_job_label lbl) && negb (is_ok_label lbl) = true →
  negb (startswith "JOB.PASS" (upper lbl))
  && negb (startswith "JOB.FAIL" (upper lbl)) = true.
Proof.
  unfold is_job_label, normalize, startswith.
  intros [Hj _]%andb_true_iff. apply negb_true_iff, orb_false_iff in Hj.
  destruct Hj as [Hp Hf]. apply andb_true_iff. split; apply negb_true_iff.
  - destruct (String.prefix "JOB.PASS" (upper lbl)) eqn:H; [|done].
    by rewrite (prefix_without_spaces "JOB.PASS" lbl) in Hp.
  - destruct (String.prefix "JOB.FAIL" (upper lbl)) eqn:H; [|done].
    by rewrite (prefix_without_spaces "JOB.FAIL" lbl) in Hf.
Qed.

Lemma list_filter_sublist_mono {A} (f g : A → bool) (l : list A) :
  (∀ x, f x = true → g x = true) →
  List.filter f l `sublist_of` List.filter g l.
Proof.
  intros Hfg. induction l as [|x l IH]; simpl; [done|].
  destruct (f x) eqn:Hf.
  - rewrite (Hfg x Hf). by apply sublist_skip.
  - destruct (g x); [by apply sublist_cons|done].
Qed.

Lemma table_row_outcomes f :
  match table_row strftime listing folder All f with
  | None => table_row strftime listing folder Pass f = None
            ∧ table_row strftime listing folder Fail f = None
  | Some r =>
      (r_result r = "✔"
       ∧ table_row strftime listing folder Pass f = Some r
       ∧ table_row strftime listing folder Fail f = None)
      ∨ (r_result r = "✘"
         ∧ table_row strftime listing folder Pass f = None
         ∧ table_row strftime listing folder Fail f = Some r)
  end.
Proof.
  unfold table_row.
  destruct (List.find _ listing) as [txt|]; [|done].
  rewrite load_txt_ok.
  destruct (txt_is_pass (loaded (f_read txt))); simpl; [left|right]; done.
Qed.

Lemma omap_outcomes (fs : list string) :
  omap (table_row strftime listing folder All) fs
  ≡ₚ omap (table_row strftime listing folder Pass) fs
     ++ omap (table_row strftime listing folder Fail) fs.
Proof.
  induction fs as [|f fs IH]; [done|]. cbn [omap list_omap].
  pose proof (table_row_outcomes f) as Hf.
  destruct (table_row strftime listing folder All f) as [r|].
  - destruct Hf as [(_ & -> & ->)|(_ & -> & ->)]; simpl.
    + by f_equiv.
    + rewrite IH. apply Permutation_middle.
  - destruct Hf as [-> ->]. done.
Qed.

Lemma string_length_app (s1 s2 : string) :
  String.length (s1 +:+ s2) = String.length s1 + String.length s2.
Proof. induction s1 as [|a s1 IH]; simpl; [done|]. by rewrite IH. Qed.

Lemma string_length_substring (n m : nat) (s : string) :
  (String.length (String.substring n m s) ≤ m)%nat.
Proof.
  revert n m. induction s as [|a s IH]; intros n m.
  - destruct n, m; simpl; lia.
  - destruct n as [|n]; [destruct m as [|m]|]; simpl; [lia| |apply IH].
    pose proof (IH 0 m). lia.
Qed.

Lemma short_name_length base : (String.length (short_name base) ≤ 20)%nat.
Proof.
  unfold short_name.
  destruct (Nat.ltb_spec (String.length base) 20); [lia|].
  rewrite string_length_app.
  pose proof (string_length_substring 0 17 base). simpl. lia.
Qed.

End TableRows.

(** X23: what the failure-cause tooling records is visible in the table.
    The cause labels of a status text are, in order, among the labels its
    "read string" column is joined from. *)
Theorem read_string_shows_the_cause_labels content :
  cause_labels content `sublist_of` FolderViewer.read_values content.
Proof.
  unfold cause_labels, FolderViewer.read_values.
  apply list_filter_sublist_mono. intros lbl. apply read_values_keep_causes.
Qed.

(** X24: the rows [populate_table] builds.  Under the Pass filter every
    row carries the pass mark and under the Fail filter the fail mark; the
    rows under All are those under Pass together with those under Fail;
    every row belongs to a [.bmp] of the listing whose [.txt] is in the
    listing too (an image without a status file has no row), carries the
    joined path of that image and a file name of at most 20 characters;
    and the viewer opens on page 0 with 10 rows per page. *)
Theorem populate_table_rows strftime listing folder :
  let rows o :=
    FolderViewer.all_rows
      (FolderViewer.populate_table strftime listing folder o) in
  (∀ r, r ∈ rows Pass → FolderViewer.r_result r = "✔")
  ∧ (∀ r, r ∈ rows Fail → FolderViewer.r_result r = "✘")
  ∧ rows All ≡ₚ rows Pass ++ rows Fail
  ∧ (∀ o r, r ∈ rows o →
       (String.length (FolderViewer.r_short_name r) ≤ 20)%nat
       ∧ ∃ f txt,
           f ∈ f_name <$> listing
           ∧ endswith ".bmp" (lower f) = true
           ∧ txt ∈ listing
           ∧ f_name txt = drop_last 4 f +:+ ".txt"
           ∧ FolderViewer.r_img_path r = path_join folder f)
  ∧ ∀ o, FolderViewer.current_page
           (FolderViewer.populate_table strftime listing folder o) = 0
         ∧ FolderViewer.page_size
             (FolderViewer.populate_table strftime listing folder o) = 10
         ∧ FolderViewer.table
             (FolderViewer.populate_table strftime listing folder o)
           = take 10 (rows o).
Proof.
  intros rows. unfold rows, FolderViewer.populate_table. simpl.
  set (bmp := py_sorted String.ltb
                (List.filter (fun f => endswith ".bmp" (lower f))
                             (f_name <$> listing))).
  split; [|split; [|split; [|split]]].
  - intros r (f & _ & Hr)%list_elem_of_omap.
    pose proof (table_row_outcomes strftime listing folder f) as Hf.
    destruct (FolderViewer.table_row strftime listing folder All f) as [r'|].
    + destruct Hf as [(? & Hp & _)|(_ & Hp & _)]; congruence.
    + destruct Hf as [Hp _]. congruence.
  - intros r (f & _ & Hr)%list_elem_of_omap.
    pose proof (table_row_outcomes strftime listing folder f) as Hf.
    destruct (FolderViewer.table_row strftime listing folder All f) as [r'|].
    + destruct Hf as [(_ & _ & Hp)|(? & _ & Hp)]; congruence.
    + destruct Hf as [_ Hp]. congruence.
  - apply omap_outcomes.
  - intros o r (f & Hin & Hr)%list_elem_of_omap.
    unfold bmp in Hin. rewrite py_sorted_perm in Hin.
    apply list_elem_of_In, filter_In in Hin as [Hin Hbmp].
    apply list_elem_of_In in Hin.
    unfold FolderViewer.table_row in Hr.
    destruct (List.find _ listing) as [txt|] eqn:Hfind; [|done].
    apply find_some in Hfind as [Htxt Hname].
    apply String.eqb_eq in Hname. apply list_elem_of_In in Htxt.
    rewrite load_txt_ok in Hr.
    assert (r = FolderViewer.Row (strftime (f_mtime txt))
                  (FolderViewer.short_name (drop_last 4 f))
                  (if txt_is_pass (loaded (f_read txt)) then "✔" else "✘")
                  (FolderViewer.read_string (loaded (f_read txt)))
                  (path_join folder f)) as ->.
    { destruct o, (txt_is_pass (loaded (f_read txt))); simpl in Hr;
        congruence. }
    split; [apply short_name_length|]. by exists f, txt.
  - intros o. split; [done|]. split; [done|].
    unfold FolderViewer.slice. by rewrite drop_0.
Qed.

(* ===================================================================== *)
(** * The table does not depend on the listing order                      *)
(* ===================================================================== *)

Section ListingOrder.
Import FolderViewer.

Lemma ascii_compare_N (x y : ascii) :
  Ascii.compare x y = (N_of_ascii x ?= N_of_ascii y)%N.
Proof. done. Qed.

Lemma string_compare_le_trans (a b c : string) :
  String.compare a b ≠ Gt → String.compare b c ≠ Gt →
  String.compare a c ≠ Gt.
Proof.
  revert b c. induction a as [|x a IH]; intros b c Hab Hbc.
  - by destruct c.
  - destruct b as [|y b]; [done|]. destruct c as [|z c]; [done|].
    simpl in *. rewrite ascii_compare_N in *.
    destruct (N.compare_spec (N_of_ascii x) (N_of_ascii y)) as [Hxy|Hxy|Hxy];
      [|clear Hab|done];
      (destruct (N.compare_spec (N_of_ascii y) (N_of_ascii z))
         as [Hyz|Hyz|Hyz]; [|clear Hbc|done]);
      destruct (N.compare_spec (N_of_ascii x) (N_of_ascii z)) as [Hxz|Hxz|Hxz];
      try done; try lia.
    by apply (IH b c).
Qed.

Lemma ltb_false_compare (a b : string) :
  String.ltb b a = false ↔ String.compare a b ≠ Gt.
Proof.
  unfold String.ltb. rewrite (String.compare_antisym a b).
  destruct (String.compare b a); simpl; split; done.
Qed.

#[local] Instance str_le_trans : Transitive str_le.
Proof.
  intros a b c. unfold str_le. rewrite !ltb_false_compare.
  apply string_compare_le_trans.
Qed.

#[local] Instance str_le_antisym : AntiSymm (=) str_le.
Proof.
  intros a b. unfold str_le. rewrite !ltb_false_compare.
  intros Hab Hba. rewrite String.compare_antisym in Hba.
  destruct (String.compare a b) eqn:Hc; [|done..].
  by apply String.compare_eq_iff.
Qed.

Lemma string_ltb_asym (a b : string) :
  String.ltb a b = true → String.ltb b a = false.
Proof.
  unfold String.ltb. rewrite (String.compare_antisym b a).
  by destruct (String.compare a b).
Qed.

Lemma py_sorted_strings_perm (l1 l2 : list string) :
  l1 ≡ₚ l2 → py_sorted String.ltb l1 = py_sorted String.ltb l2.
Proof.
  intros Hp. apply (Sorted_unique str_le).
  - apply py_sorted_Sorted, string_ltb_asym.
  - apply py_sorted_Sorted, string_ltb_asym.
  - by rewrite !py_sorted_perm.
Qed.

Lemma list_filter_perm {A} (f : A → bool) (l1 l2 : list A) :
  l1 ≡ₚ l2 → List.filter f l1 ≡ₚ List.filter f l2.
Proof.
  induction 1 as [|x l1 l2 _ IH|x y l|l1 l2 l3 _ IH1 _ IH2]; simpl.
  - done.
  - destruct (f x); [by f_equiv|done].
  - destruct (f x), (f y); try done. apply perm_swap.
  - by trans (List.filter f l2).
Qed.

Lemma find_by_name_perm (l1 l2 : list file_entry) (n : string) :
  NoDup (f_name <$> l2) → l1 ≡ₚ l2 →
  List.find (fun g => String.eqb (f_name g) n) l1
  = List.find (fun g => String.eqb (f_name g) n) l2.
Proof.
  intros Hnd Hp.
  assert (∀ l : list file_entry, l ≡ₚ l2 → ∀ x,
            List.find (fun g => String.eqb (f_name g) n) l = Some x →
            ∀ y, y ∈ l2 → f_name y = n → y = x) as Huniq.
  { intros l Hl x Hx y Hy Hn. apply find_some in Hx as [Hx Hxn].
    apply String.eqb_eq in Hxn. apply list_elem_of_In in Hx.
    rewrite Hl in Hx.
    apply list_elem_of_lookup in Hx as [i Hi].
    apply list_elem_of_lookup in Hy as [j Hj].
    assert (i = j) as ->; [|congruence].
    apply (NoDup_lookup (f_name <$> l2) i j n); [done| |].
    - by rewrite list_lookup_fmap, Hi, <- Hxn.
    - by rewrite list_lookup_fmap, Hj, <- Hn. }
  destruct (List.find _ l2) as [x2|] eqn:H2.
  - destruct (List.find _ l1) as [x1|] eqn:H1.
    + f_equal. pose proof H2 as H2'. apply find_some in H2' as [Hin Hn].
      apply String.eqb_eq in Hn. apply list_elem_of_In in Hin.
      symmetry. apply (Huniq l1 Hp x1 H1 x2 Hin Hn).
    + apply find_some in H2 as [Hin Hn].
      apply list_elem_of_In in Hin. rewrite <- Hp in Hin.
      apply list_elem_of_In in Hin.
      by rewrite (find_none _ _ H1 _ Hin) in Hn.
  - destruct (List.find _ l1) as [x1|] eqn:H1; [|done].
    apply find_some in H1 as [Hin Hn].
    apply list_elem_of_In in Hin. rewrite Hp in Hin.
    apply list_elem_of_In in Hin.
    by rewrite (find_none _ _ H2 _ Hin) in Hn.
Qed.

Lemma populate_table_perm strftime (l1 l2 : list file_entry) folder o :
  NoDup (f_name <$> l2) → l1 ≡ₚ l2 →
  populate_table strftime l1 folder o = populate_table strftime l2 folder o.
Proof.
  intros Hnd Hp. unfold populate_table.
  rewrite (py_sorted_strings_perm
             (List.filter (fun f => endswith ".bmp" (lower f)) (f_name <$> l1))
             (List.filter (fun f => endswith ".bmp" (lower f)) (f_name <$> l2)))
    by (apply list_filter_perm; by rewrite Hp).
  assert (∀ fs, omap (table_row strftime l1 folder o) fs
               = omap (table_row strftime l2 folder o) fs) as ->; [|done].
  intros fs. induction fs as [|f fs IH]; [done|]. cbn [omap list_omap].
  rewrite IH. unfold table_row.
  by rewrite (find_by_name_perm l1 l2 _ Hnd Hp).
Qed.

End ListingOrder.

(** X25: the image table does not depend on the order in which the
    directory is listed.  For a listing without repeated names, any
    reordering of it gives the same viewer: the same rows in the same
    order, on the same page. *)
Theorem populate_table_ignores_listing_order strftime
    (listing listing' : list file_entry) folder o :
  NoDup (f_name <$> listing) → listing' ≡ₚ listing →
  FolderViewer.populate_table strftime listing' folder o
  = FolderViewer.populate_table strftime listing folder o.
Proof. apply populate_table_perm. Qed.

Lemma populate_table_ignores_listing_order_witness :
  let bmp := FileEntry "unitA_001.bmp" 40 (Ok "") in
  let txt := FileEntry "unitA_001.txt" 45 (Ok "Voltage:Low, Job.Fail:1") in
  FolderViewer.populate_table (fun _ => "") [txt; bmp] "/data/unitA" All
  = FolderViewer.populate_table (fun _ => "") [bmp; txt] "/data/unitA" All.
Proof.
  intros bmp txt.
  apply populate_table_ignores_listing_order.
  - apply (bool_decide_unpack _). vm_compute. exact I.
  - apply perm_swap.
Defined.

(* ===================================================================== *)
(** * Naming convention, and the pipeline end to end                      *)
(* ===================================================================== *)

Section Naming.
Implicit Types (p seg base s : string).

Lemma drop_last_app s ext :
  drop_last (String.length ext) (s +:+ ext) = s.
Proof.
  unfold drop_last. rewrite string_length_app.
  replace (String.length s + String.length ext - String.length ext)
    with (String.length s) by lia.
  induction s as [|a s IH]; simpl.
  - by destruct ext.
  - by rewrite IH.
Qed.

Lemma drop_last_txt s : drop_last 4 (s +:+ ".txt") = s.
Proof. exact (drop_last_app s ".txt"). Qed.

Lemma string_app_assoc s1 s2 s3 :
  (s1 +:+ s2) +:+ s3 = s1 +:+ (s2 +:+ s3).
Proof.
  induction s1 as [|a s1 IH]; [done|].
  change (String a ((s1 +:+ s2) +:+ s3) = String a (s1 +:+ (s2 +:+ s3))).
  by rewrite IH.
Qed.

Lemma before_last_none c s : has_char c s = false → before_last c s = None.
Proof.
  induction s as [|a s IH]; simpl; [done|].
  intros [Ha Hs]%orb_false_iff. by rewrite IH, Ha.
Qed.

Lemma before_last_app c p seg :
  has_char c seg = false →
  before_last c (p +:+ String c seg) = Some p.
Proof.
  intros Hseg. induction p as [|a p IH]; simpl.
  - by rewrite before_last_none, Ascii.eqb_refl.
  - by rewrite IH.
Qed.

End Naming.

(** X26: the naming convention round trip.  A status file named
    [<id>_<run>.txt], where [<run>] has no underscore, is filed under
    [<id>] (which may itself contain underscores); a status file
    [<name>.txt] whose name has no underscore is filed under [<name>]. *)
Theorem prefix_of_run_file p seg :
  has_char "_" seg = false →
  prefix_of_file (p +:+ "_" +:+ seg +:+ ".txt") = p
  ∧ prefix_of_file (seg +:+ ".txt") = seg.
Proof.
  intros Hseg. unfold prefix_of_file. split.
  - change (p +:+ "_" +:+ seg +:+ ".txt")
      with (p +:+ (String "_" seg +:+ ".txt")).
    rewrite <- string_app_assoc, drop_last_txt, prefix_of_base.
    by rewrite before_last_app.
  - rewrite drop_last_txt, prefix_of_base.
    by rewrite before_last_none.
Qed.

Lemma prefix_of_run_file_witness :
  prefix_of_file ("line_3_unitA" +:+ "_" +:+ "0042" +:+ ".txt")
  = "line_3_unitA".
Proof.
  apply (proj1 (prefix_of_run_file "line_3_unitA" "0042" ltac:(reflexivity))).
Defined.

Section Pipeline.

Lemma last_count (r : Z) (a n : nat) :
  last ((fun i => (r + Z.of_nat i)%Z) <$> seq a (S n))
  = Some (r + Z.of_nat (a + n))%Z.
Proof.
  rewrite seq_S, fmap_app. cbn [fmap list_fmap]. by rewrite last_snoc.
Qed.

Lemma render_time_chart_last (events : list event) xs ys :
  render_time_chart true events = Some (xs, ys) →
  events ≠ [] ∧ last ys = Some (Z.of_nat (length events))
  ∧ length xs = length events.
Proof.
  intros Hr. destruct events as [|ev events]; [done|].
  split; [done|].
  set (lt := fun a b : event => (ts a <? ts b)%Z) in *.
  unfold render_time_chart, time_points in Hr. fold lt in Hr.
  rewrite time_points_cumulative in Hr.
  assert (length (py_sorted lt (ev :: events)) = S (length events)) as Hlen
    by (by rewrite py_sorted_perm).
  rewrite Hlen in Hr.
  destruct (py_sorted lt (ev :: events)) as [|e l] eqn:Hs; [done|].
  injection Hr as <- <-. split.
  - change (last ((fun i => (0 + Z.of_nat i)%Z)
                    <$> seq 1 (S (length events)))
            = Some (Z.of_nat (length (ev :: events)))).
    rewrite last_count. f_equal.
  - change (length (ts <$> e :: l) = length (ev :: events)).
    by rewrite length_fmap.
Qed.

Lemma render_time_chart_some (events : list event) :
  events ≠ [] → is_Some (render_time_chart true events).
Proof.
  intros Hne. unfold render_time_chart.
  destruct (py_sorted _ events) as [|e l] eqn:Hs.
  - by apply py_sorted_nil in Hs.
  - destruct (time_points true (e :: l)) as [[xs ys] r]. by eexists.
Qed.

End Pipeline.

(** X27: the cumulative chart against the summary chart.  The cumulative
    chart has a series for an identity exactly when the identity has
    filtered records (an identity emptied by the filter has a summary
    count of 0 and no series), and the last value of the series is the
    identity's summary count. *)
Theorem cumulative_chart_matches_summary
    (filtered_data : gmap string (list event)) prefix :
  ((∃ series, (prefix, series) ∈ render_cumulative_chart filtered_data)
   ↔ ∃ n, summary_counts filtered_data !! prefix = Some (S n))
  ∧ ∀ xs ys,
      (prefix, (xs, ys)) ∈ render_cumulative_chart filtered_data →
      ∃ n, summary_counts filtered_data !! prefix = Some n
           ∧ last ys = Some (Z.of_nat n) ∧ length xs = n.
Proof.
  assert (∀ series,
            (prefix, series) ∈ render_cumulative_chart filtered_data
            ↔ ∃ events, filtered_data !! prefix = Some events
                        ∧ render_time_chart true events = Some series)
    as Hseries.
  { intros series. unfold render_cumulative_chart.
    rewrite list_elem_of_omap. split.
    - intros ([k events] & Hin & Hr). apply elem_of_map_to_list in Hin.
      destruct (render_time_chart true events) as [s|] eqn:Hs; [|done].
      injection Hr as -> ->. by exists events.
    - intros (events & Hl & Hr). exists (prefix, events).
      split; [by apply elem_of_map_to_list|]. by rewrite Hr. }
  assert (∀ k, summary_counts filtered_data !! k
               = length <$> filtered_data !! k) as Hsum.
  { intros k. unfold summary_counts. by rewrite fold_insert_fmap, lookup_fmap. }
  split.
  - split.
    + intros [[xs ys] (events & Hl & Hr)%Hseries].
      apply render_time_chart_last in Hr as (Hne & _).
      rewrite Hsum, Hl. destruct events; [done|]. by eexists.
    + intros [n Hn]. rewrite Hsum in Hn.
      destruct (filtered_data !! prefix) as [events|] eqn:Hl; [|done].
      destruct (render_time_chart_some events) as [series Hr];
        [by destruct events|].
      exists series. apply Hseries. by exists events.
  - intros xs ys (events & Hl & Hr)%Hseries.
    apply render_time_chart_last in Hr as (_ & Hlast & Hlen).
    exists (length events). by rewrite Hsum, Hl.
Qed.

(** X28: from the walk to the dashboard.  On the data ingestion returns,
    shown unfiltered, the dashboard's total is the number of status files
    found, and its pass and fail totals are the numbers of status files
    whose loaded text classifies Pass and Fail. *)
Theorem dashboard_counts_the_status_files (w : walk) data causes :
  parse_folder_data w = Ok (data, causes) →
  total_count data = Z.of_nat (length (status_paths w))
  ∧ total_pass data
    = Z.of_nat (length (List.filter is_pass (walk_events w).*2))
  ∧ total_fail data
    = Z.of_nat (length (List.filter (fun ev => negb (is_pass ev))
                                    (walk_events w).*2)).
Proof.
  rewrite parse_folder_data_eq. intros [= <- <-].
  pose proof (all_events_fold (walk_events w) ∅) as Hp.
  unfold all_events at 2 in Hp. rewrite map_to_list_empty in Hp.
  simpl in Hp.
  rewrite total_count_events, total_pass_events, total_fail_events.
  split; [|split].
  - rewrite Hp, length_fmap. f_equal. clear Hp.
    unfold walk_events, status_paths.
    induction w as [|[root files] w IH]; [done|].
    cbn [mbind list_bind]. rewrite !length_app, !length_fmap. by rewrite IH.
  - f_equal. apply Permutation_length. by apply list_filter_perm.
  - f_equal. apply Permutation_length. by apply list_filter_perm.
Qed.

Lemma dashboard_counts_the_status_files_witness :
  total_count
    {[ "unitA" := [Event 45 false "/data/unitA_001.txt"
                         "Voltage:Low, Job.Fail:1"] ]}
  = 1%Z.
Proof.
  refine (proj1 (dashboard_counts_the_status_files
    [("/data", [FileEntry "unitA_001.txt" 45 (Ok "Voltage:Low, Job.Fail:1");
                FileEntry "unitA_001.bmp" 40 (Ok "")])]
    _ {[ "Voltage:Low" := ["/data/unitA_001.txt"] ]} _)).
  vm_compute. reflexivity.
Defined.

(* ===================================================================== *)
(** * Loading strips the text; the labels stay the same                   *)
(* ===================================================================== *)

Section StripLabels.
Implicit Types (s p q : string) (c : ascii).

Lemma space_not_comma c : is_space c = true → Ascii.eqb c "," = false.
Proof.
  intros Hc. destruct (Ascii.eqb_spec c ",") as [->|]; [|done].
  by vm_compute in Hc.
Qed.

Lemma strip_comm s : rstrip (lstrip s) = lstrip (rstrip s).
Proof.
  induction s as [|c r IH]; [done|]. cbn [lstrip rstrip].
  destruct (is_space c) eqn:Hc.
  - rewrite IH. destruct (rstrip r) as [|b r']; [done|].
    cbn [lstrip]. by rewrite Hc.
  - cbn [rstrip]. destruct (rstrip r) as [|b r']; cbn [lstrip]; by rewrite Hc.
Qed.

Lemma rstrip_cons_eq c p q :
  rstrip p = rstrip q → rstrip (String c p) = rstrip (String c q).
Proof. intros H. cbn [rstrip]. by rewrite H. Qed.

Lemma rstrip_eq_strip p q : rstrip p = rstrip q → strip p = strip q.
Proof. intros H. unfold strip. by rewrite !strip_comm, H. Qed.

Lemma split_rstrip s :
  Forall2 (fun p q => rstrip p = rstrip q) (split "," (rstrip s)) (split "," s).
Proof.
  induction s as [|c r IH]; [by repeat constructor|].
  cbn [rstrip]. destruct (rstrip r) as [|b r'] eqn:Hr.
  - cbn [split] in IH. apply Forall2_cons_inv_l in IH as (p & ps & Hp & Hnil & Hs).
    apply Forall2_nil_inv_l in Hnil as ->. cbn [split]. rewrite Hs.
    destruct (is_space c) eqn:Hc.
    + rewrite (space_not_comma c Hc). cbn [split]. constructor; [|done].
      cbn [rstrip]. by rewrite <- Hp, Hc.
    + cbn [split]. destruct (Ascii.eqb c ",").
      * by repeat constructor.
      * constructor; [|done]. cbn [rstrip]. by rewrite <- Hp, Hc.
  - rewrite <- Hr in IH |- *. clear Hr. cbn [split].
    destruct (Ascii.eqb c ","); [by constructor|].
    destruct IH as [|q' q qs' qs Hq Hqs]; [by repeat constructor|].
    constructor; [|done]. by apply rstrip_cons_eq.
Qed.

Lemma labels_of_pieces (l' l : list string) :
  Forall2 (fun p q => rstrip p = rstrip q) l' l →
  List.map strip (List.filter (fun p => truthy (strip p)) l')
  = List.map strip (List.filter (fun p => truthy (strip p)) l).
Proof.
  induction 1 as [|p q l' l Hpq _ IH]; [done|]. simpl.
  rewrite (rstrip_eq_strip p q Hpq). destruct (truthy (strip q)); simpl;
    rewrite ?(rstrip_eq_strip p q Hpq); by rewrite IH.
Qed.

Lemma labels_of_rstrip s : labels_of (rstrip s) = labels_of s.
Proof. apply labels_of_pieces, split_rstrip. Qed.

Lemma labels_of_space c s :
  is_space c = true → labels_of (String c s) = labels_of s.
Proof.
  intros Hc. unfold labels_of. cbn [split]. rewrite (space_not_comma c Hc).
  pose proof (split_nonempty "," s) as Hne.
  destruct (split "," s) as [|p ps]; [by destruct Hne|]. cbn [List.filter].
  assert (strip (String c p) = strip p) as Hp.
  { unfold strip. cbn [lstrip]. by rewrite Hc. }
  rewrite Hp. destruct (truthy (strip p)); [|done].
  cbn [List.map]. by rewrite Hp.
Qed.

Lemma labels_of_lstrip s : labels_of (lstrip s) = labels_of s.
Proof.
  induction s as [|c r IH]; [done|]. cbn [lstrip].
  destruct (is_space c) eqn:Hc; [|done]. by rewrite IH, labels_of_space.
Qed.

Lemma labels_of_strip s : labels_of (strip s) = labels_of s.
Proof. unfold strip. by rewrite labels_of_rstrip, labels_of_lstrip. Qed.

End StripLabels.

(** X29: loading strips the text but changes nothing that is read from
    it.  The stripped text has the same labels, the same verdict and the
    same cause labels as the raw text, so the record ingestion stores for a
    readable status file carries the verdict of the file's text as it is
    on disk. *)
Theorem loading_keeps_the_labels text :
  labels_of (strip text) = labels_of text
  ∧ txt_is_pass (strip text) = txt_is_pass text
  ∧ cause_labels (strip text) = cause_labels text
  ∧ ∀ root name mtime,
      is_pass (event_of_file root (FileEntry name mtime (Ok text)))
      = txt_is_pass text.
Proof.
  split; [apply labels_of_strip|]. split.
  { by rewrite !txt_is_pass_existsb, labels_of_strip. }
  split.
  { unfold cause_labels. by rewrite labels_of_strip. }
  intros root name mtime. unfold event_of_file. simpl.
  by rewrite !txt_is_pass_existsb, labels_of_strip.
Qed.

(* ===================================================================== *)
(** * Instances                                                           *)
(* ===================================================================== *)


Lemma dashboard_totals_witness :
  let fd : gmap string (list event) :=
    {[ "unitA" := [Event 45 false "/data/unitA_001.txt" "Job.Fail:1";
                   Event 75 true "/data/unitA_002.txt" "Job.Pass:1"] ]} in
  (0 ≤ total_fail fd ≤ 2)%Z ∧ (1 ≤ 2)%Z ∧ create_gauge (total_fail fd) 2 = (total_fail fd, 2%Z).
Proof.
  intros fd.
  apply (proj2 (proj2 (proj2 (dashboard_totals fd))) "Fail" (total_fail fd) 2%Z
               "red").
  vm_compute. do 2 apply list_elem_of_further. apply list_elem_of_here.
Defined.

Lemma populate_table_rows_witness :
  let listing := [FileEntry "unitA_001.bmp" 40 (Ok "");
                  FileEntry "unitA_001.txt" 45
                            (Ok "Voltage:Low, Job.Fail:1")] in
  let r := FolderViewer.Row "" "unitA_001" "✘" "Voltage:Low"
                            "/data/unitA/unitA_001.bmp" in
  FolderViewer.r_result r = "✘".
Proof.
  intros listing r.
  apply (proj1 (proj2 (populate_table_rows (fun _ => "") listing
                         "/data/unitA")) r).
  vm_compute. apply list_elem_of_here.
Defined.

Lemma cumulative_chart_matches_summary_witness :
  let fd : gmap string (list event) :=
    {[ "unitA" := [Event 75 true "/data/unitA_002.txt" "Job.Pass:1";
                   Event 45 false "/data/unitA_001.txt" "Job.Fail:1"];
       "unitB" := [] ]} in
  ∃ n, summary_counts fd !! "unitA" = Some n
       ∧ last [1; 2]%Z = Some (Z.of_nat n) ∧ length [45; 75]%Z = n.
Proof.
  intros fd.
  apply (proj2 (cumulative_chart_matches_summary fd "unitA")
               [45; 75]%Z [1; 2]%Z).
  vm_compute. apply list_elem_of_here.
Defined.
